(** * The FastAPI example: interaction log, payment gate and handlers

    A shallow embedding of [examples/python-fastapi/interaction_log.py]
    (class [InteractionLog]) and the properties of its ring arithmetic,
    followed by the payment gate of [x402_middleware.py] and the JSON
    handlers of [server.py].

    Python integers are unbounded, so they are [Z]; Python's [%] takes the
    sign of the divisor, as [Z.modulo] does, and raises on a zero divisor.
    A list index may be negative (it then counts from the end) and raises
    when it falls outside the list.  Dictionaries are finite maps: two
    dictionaries are equal when they hold the same items, whatever the
    order of insertion.  The methods are embedded as the sequential code
    of their bodies; the lock that guards them is left out. *)

From stdpp Require Import base numbers list strings gmap fin_maps pretty.
From Stdlib Require Import Floats.SpecFloat.

Open Scope Z_scope.

(** ** Exceptions and outcomes *)

Inductive exn : Type :=
  | IndexError
  | ZeroDivisionError
  | TypeError.

Inductive outcome (A : Type) : Type :=
  | Ok (a : A)
  | Raise (e : exn).

Arguments Ok {A} a.
Arguments Raise {A} e.

#[global] Instance outcome_bind : MBind outcome := λ A B k m,
  match m with
  | Ok a => k a
  | Raise e => Raise e
  end.

(** ** Python primitives used by the class *)

(** [a % b] *)
Definition py_mod (a b : Z) : outcome Z :=
  if decide (b = 0) then Raise ZeroDivisionError else Ok (a `mod` b).

(** The position a list index denotes, when it denotes one. *)
Definition py_index {A : Type} (l : list A) (i : Z) : outcome nat :=
  let len := Z.of_nat (length l) in
  let j := if decide (i < 0) then i + len else i in
  if decide (0 ≤ j < len) then Ok (Z.to_nat j) else Raise IndexError.

(** [l[i]] *)
Definition py_getitem {A : Type} (l : list A) (i : Z) : outcome A :=
  j ← py_index l i;
  match l !! j with
  | Some x => Ok x
  | None => Raise IndexError
  end.

(** [l[i] = x] *)
Definition py_setitem {A : Type} (l : list A) (i : Z) (x : A) : outcome (list A) :=
  j ← py_index l i;
  Ok (<[j := x]> l).

(** [range(n)] *)
Definition range (n : Z) : list Z := seqZ 0 n.

(** [for i in idxs: acc = body(i, acc)], stopping at the first exception. *)
Fixpoint for_each {S : Type} (body : Z → S → outcome S) (idxs : list Z) (acc : S)
  : outcome S :=
  match idxs with
  | [] => Ok acc
  | i :: rest => acc' ← body i acc; for_each body rest acc'
  end.

(** ** The class *)

(** An entry is a dictionary from field names to values. *)
Abbreviation entry V := (gmap string V) (only parsing).

(** The values Python can hash.  A dictionary takes no other value as a
    key: looking one up raises [TypeError]. *)
Class Hashable (V : Type) := hashable : V → bool.

Section InteractionLog.

(** Field values are opaque to the log, except that [get_stats] uses the
    value of the [type] field as a dictionary key.  Equal values are one
    key; a value that is not [hashable] (a list, a dictionary) is none. *)
Context {V : Type} `{Countable V} `{Hashable V}.

Record InteractionLog : Type := mkLog {
  _buffer : list (option (entry V));
  _max_size : Z;
  _head : Z;
  _count : Z
}.

(** [InteractionLog(max_size)] *)
Definition init (max_size : Z) : outcome InteractionLog :=
  Ok {| _buffer := replicate (Z.to_nat max_size) None;
        _max_size := max_size;
        _head := 0;
        _count := 0 |}.

(** The dictionary display of [add]: the [timestamp] item first, then the
    keyword arguments unpacked over it.  A [timestamp] among the keyword
    arguments comes later in the display and replaces the clock's. *)
Definition stamped (now : V) (kwargs : gmap string V) : entry V :=
  kwargs ∪ {["timestamp" := now]}.

(** [add], called with the keyword arguments [kwargs] when the clock
    reads [now]. *)
Definition add (now : V) (kwargs : gmap string V) (self : InteractionLog)
  : outcome InteractionLog :=
  let entry := stamped now kwargs in
  buffer ← py_setitem (_buffer self) (_head self) (Some entry);
  head ← py_mod (_head self + 1) (_max_size self);
  let count :=
    if decide (_count self < _max_size self) then _count self + 1
    else _count self in
  Ok {| _buffer := buffer; _max_size := _max_size self;
        _head := head; _count := count |}.

(** [get_recent(n)] *)
Definition get_recent (n : Z) (self : InteractionLog) : outcome (list (entry V)) :=
  let count := Z.min n (_count self) in
  start ← py_mod (_head self - count + _max_size self) (_max_size self);
  for_each (fun i result =>
      idx ← py_mod (start + i) (_max_size self);
      entry ← py_getitem (_buffer self) idx;
      match entry with
      | Some e => Ok (result ++ [e])
      | None => Ok result
      end)
    (range count) [].

Record stats : Type := mkStats {
  total : Z;
  by_type : gmap V Z
}.

(** The truth value of a slot: [None] and the empty dictionary are false. *)
Definition truthy (slot : option (entry V)) : bool :=
  match slot with
  | Some e => bool_decide (e ≠ ∅)
  | None => false
  end.

(** [get_stats()] *)
Definition get_stats (self : InteractionLog) : outcome stats :=
  by_type ← for_each (fun i by_type =>
      idx ← py_mod (_head self - _count self + i + _max_size self)
                   (_max_size self);
      entry ← py_getitem (_buffer self) idx;
      match entry with
      | Some e =>
          if truthy entry then
            match e !! "type" with
            | Some t =>
                if hashable t
                then Ok (<[t := default 0 (by_type !! t) + 1]> by_type)
                else Raise TypeError
            | None => Ok by_type
            end
          else Ok by_type
      | None => Ok by_type
      end)
    (range (_count self)) ∅;
  Ok {| total := _count self; by_type := by_type |}.

(** [clear()] *)
Definition clear (self : InteractionLog) : InteractionLog :=
  {| _buffer := _buffer self; _max_size := _max_size self;
     _head := 0; _count := 0 |}.

(** ** Sequences of calls *)

(** The calls [add(kwargs)] of a list, in order; each comes with the
    reading of the clock at its call. *)
Fixpoint add_all (adds : list (V * gmap string V)) (self : InteractionLog)
  : outcome InteractionLog :=
  match adds with
  | [] => Ok self
  | (now, kwargs) :: rest => self' ← add now kwargs self; add_all rest self'
  end.

(** The entries these calls build, in the order of the calls. *)
Definition entries (adds : list (V * gmap string V)) : list (entry V) :=
  map (fun a => stamped a.1 a.2) adds.

(** The states a log of capacity [c] goes through: the reads leave the
    object as it is, so [add] and [clear] are the only steps. *)
Inductive reachable (c : Z) : InteractionLog → Prop :=
  | reach_init self :
      init c = Ok self → reachable c self
  | reach_add now kwargs self self' :
      reachable c self → add now kwargs self = Ok self' → reachable c self'
  | reach_clear self :
      reachable c self → reachable c (clear self).

(** ** The retained entries *)

(** The last [n] elements of a list (all of it when it is shorter). *)
Definition lastn {A : Type} (n : nat) (l : list A) : list A :=
  drop (length l - n)%nat l.

(** [represents self r]: the log [self] retains the entries [r], oldest
    first.  The [i]-th of them sits [count - i] slots behind [head],
    counted around the ring. *)
Definition represents (self : InteractionLog) (r : list (entry V)) : Prop :=
  1 ≤ _max_size self ∧
  length (_buffer self) = Z.to_nat (_max_size self) ∧
  0 ≤ _head self < _max_size self ∧
  _count self = Z.of_nat (length r) ∧
  _count self ≤ _max_size self ∧
  (∀ (i : nat) (e : entry V), r !! i = Some e →
     _buffer self
       !! Z.to_nat ((_head self - _count self + Z.of_nat i) `mod` _max_size self)
     = Some (Some e)) ∧
  Forall (fun e : entry V => ∃ now kwargs, e = stamped now kwargs) r.

(** ** What [get_stats] tallies *)

(** Whether the [type] fields of a list of entries can all be keys. *)
Definition types_hashable (r : list (entry V)) : bool :=
  forallb (fun e : entry V =>
             match e !! "type" with
             | Some t => hashable t
             | None => true
             end) r.

(** One step of the tally. *)
Definition tally (by_type : gmap V Z) (e : entry V) : gmap V Z :=
  match e !! "type" with
  | Some t => <[t := default 0 (by_type !! t) + 1]> by_type
  | None => by_type
  end.

(** The number of entries of a list whose [type] field is [t]. *)
Definition type_count (t : V) (r : list (entry V)) : Z :=
  Z.of_nat (length (filter (fun e : entry V => e !! "type" = Some t) r)).

(** The number of entries of a list without a [type] field. *)
Definition untyped_count (r : list (entry V)) : Z :=
  Z.of_nat (length (filter (fun e : entry V => e !! "type" = None) r)).

(** The sum of the counts of a [by_type] dictionary. *)
Definition sum_counts (by_type : gmap V Z) : Z :=
  map_fold (fun _ n acc => n + acc) 0 by_type.

End InteractionLog.

(** ** Field values at work *)

(** Every string can be a key. *)
#[global] Instance string_hashable : Hashable string := fun _ => true.

(** Strings and lists of strings: a list cannot be a key. *)
Inductive value : Type :=
  | Str (s : string)
  | Lst (items : list string).

#[global] Instance value_eq_dec : EqDecision value.
Proof. solve_decision. Defined.

#[global] Instance value_countable : Countable value.
Proof.
  refine (inj_countable'
            (fun v => match v with Str s => inl s | Lst items => inr items end)
            (fun x => match x with inl s => Str s | inr items => Lst items end)
            _).
  by intros [].
Defined.

#[global] Instance value_hashable : Hashable value := fun v =>
  match v with
  | Str _ => true
  | Lst _ => false
  end.

(** ** A log at work *)

(** A log of capacity 2 after [add(type="mcp")] at [t1] and
    [add(tool="getPrice")] at [t2]: it is full and [head] is back at 0. *)
Definition full_log : @InteractionLog string :=
  {| _buffer := [Some (stamped "t1" {["type" := "mcp"]});
                 Some (stamped "t2" {["tool" := "getPrice"]})];
     _max_size := 2;
     _head := 0;
     _count := 2 |}.

(** A log of capacity 3 after [add(type="mcp")] at [t1]: two slots are
    still empty. *)
Definition young_log : @InteractionLog string :=
  {| _buffer := [Some (stamped "t1" {["type" := "mcp"]}); None; None];
     _max_size := 3;
     _head := 1;
     _count := 1 |}.

(** A log of capacity 10 after [add(type="mcp")] at [t1] and
    [add(type=["a", "b"])] at [t2]. *)
Definition mixed_log : @InteractionLog value :=
  {| _buffer := Some (stamped (Str "t1") {["type" := Str "mcp"]})
                :: Some (stamped (Str "t2") {["type" := Lst ["a"; "b"]]})
                :: replicate 8 None;
     _max_size := 10;
     _head := 2;
     _count := 2 |}.

(** Two calls, and the same calls served in the other order. *)
Definition two_calls : list (string * gmap string string) :=
  [("t1", {["type" := "mcp"]}); ("t2", {["type" := "a2a"]})].

Definition two_calls_swapped : list (string * gmap string string) :=
  [("t2", {["type" := "a2a"]}); ("t1", {["type" := "mcp"]})].

(** * The payment gate of [x402_middleware.py]

    [require_x402_payment] resolves the terms of payment once, when the
    endpoint is decorated, from its arguments, the environment and the
    constants of the module; the wrapper it returns then decides each
    request on the [X-PAYMENT] header.  [_verify_payment] decodes the
    header, reads the clock and asks the facilitator over the network: its
    verdict is taken as given. *)

(** ** JSON values *)

(** What [json.loads] returns, and what a response is built from. *)
#[local] Set Warnings "-register-all".
Inductive json : Type :=
  | JNull
  | JBool (b : bool)
  | JInt (z : Z)
  | JFloat (f : spec_float)
  | JStr (s : string)
  | JList (l : list json)
  | JDict (d : gmap string json).
#[local] Set Warnings "+register-all".

(** [JSONResponse(content, status_code=200)] *)
Record JSONResponse : Type := mkResponse {
  content : json;
  status_code : Z
}.

(** ** The constants of the module *)

Definition DEFAULT_USDC : gmap string string :=
  {[ "avalanche" := "0xB97EF9Ef8734C71904D8002F8b6Bc66Dd9c48a6E";
     "base" := "0x833589fCD6eDb6E08f4c7C32D4f71b54bdA02913";
     "ethereum" := "0xA0b86991c6218b36c1d19D4a2e9Eb0cE3606eB48";
     "arbitrum" := "0xaf88d065e77c8cC2239327C5EDb3A432268e5831";
     "optimism" := "0x0b2C639c533813f4Aa9D7837CAf62653d097Ff85";
     "polygon" := "0x3c499c542cEF5E3811e1192ce70d8cC03d5c3359" ]}.

Definition DEFAULT_FACILITATOR : string :=
  "https://facilitator.ultravioletadao.xyz".

(** ** Python primitives used by the decorator *)

(** [a or b] where [a] is a string or [None]: the empty string is false
    as [None] is. *)
Definition str_or (a : option string) (b : string) : string :=
  match a with
  | Some s => if decide (s = "") then b else s
  | None => b
  end.

(** [not a] for such a value. *)
Definition str_not (a : option string) : bool :=
  match a with
  | Some s => bool_decide (s = "")
  | None => true
  end.

(** [d.get(k, default)] on a dictionary of strings, as [os.environ] and
    [DEFAULT_USDC] are. *)
Definition str_get (d : gmap string string) (k : string) (dflt : string)
  : string :=
  default dflt (d !! k).

(** [str(price)] *)
Definition str_of_int (z : Z) : string := pretty z.

(** ** The decorator *)

(** What the wrapper closes over. *)
Record x402_terms : Type := mkTerms {
  price : Z;
  usdc : string;
  wallet : string;
  net : string;
  fac_url : string;
  description : string
}.

(** [require_x402_payment(price, asset, recipient, network,
    facilitator_url, description)], up to the definition of the wrapper;
    [environ] is [os.environ] at that time.  [DEFAULT_USDC["avalanche"]]
    is a key of the table. *)
Definition require_x402_payment (environ : gmap string string)
    (price : Z) (asset recipient network facilitator_url : option string)
    (description : string) : x402_terms :=
  let net := str_or network (str_get environ "X402_NETWORK" "avalanche") in
  let usdc := str_or asset (str_get DEFAULT_USDC net (DEFAULT_USDC !!! "avalanche")) in
  let wallet := str_or recipient (str_get environ "X402_RECIPIENT" "") in
  let fac_url := str_or facilitator_url DEFAULT_FACILITATOR in
  {| price := price; usdc := usdc; wallet := wallet; net := net;
     fac_url := fac_url; description := description |}.

(** What a request to a gated endpoint gets: a response of the gate, or
    what the endpoint returns once it is called. *)
Inductive gated (R : Type) : Type :=
  | Answered (response : JSONResponse)
  | Called (result : R).

Arguments Answered {R} response.
Arguments Called {R} result.

(** The body of the 402 response. *)
Definition payment_required (terms : x402_terms) : json :=
  JDict {[ "error" := JStr "Payment Required";
           "x402" := JDict {[ "version" := JInt 1;
                              "amount" := JStr (str_of_int (price terms));
                              "asset" := JStr (usdc terms);
                              "recipient" := JStr (wallet terms);
                              "network" := JStr (net terms);
                              "facilitator" := JStr (fac_url terms);
                              "description" := JStr (description terms) ]} ]}.

(** [wrapper(request)]: [payment_header] is
    [request.headers.get("X-PAYMENT")], [_verify_payment] the verdict of
    the verification and [func] what the endpoint returns. *)
Definition wrapper {R : Type} (terms : x402_terms)
    (_verify_payment : string → Z → string → string → bool)
    (payment_header : option string) (func : R) : gated R :=
  match payment_header with
  | Some header =>
      if str_not payment_header then
        Answered {| content := payment_required terms; status_code := 402 |}
      else if negb (_verify_payment header (price terms) (wallet terms)
                      (fac_url terms)) then
        Answered {| content := JDict {[ "error" := JStr "Invalid or expired payment" ]};
                    status_code := 403 |}
      else Called func
  | None =>
      Answered {| content := payment_required terms; status_code := 402 |}
  end.

(** * The handlers of [server.py]

    The handlers take the body of the request as [request.json()] parsed
    it and the reading of the clock.  What they read from
    [registration.json], a file that comes with a deployment, is a
    variable: the module does not load unless the file holds a JSON
    object with a [name]. *)

(** ** Python primitives used by the handlers *)

(** The exceptions the handlers' own code can raise on a JSON value: a
    method asked of a value that has none of that name, and a value that
    cannot be rendered. *)
Inductive failure : Type :=
  | AttributeError
  | ValueError.

Inductive attempt (A : Type) : Type :=
  | Returns (a : A)
  | Fails (e : failure).

Arguments Returns {A} a.
Arguments Fails {A} e.

#[global] Instance attempt_bind : MBind attempt := λ A B k m,
  match m with
  | Returns a => k a
  | Fails e => Fails e
  end.

(** [x.get(key, default)]: only a dictionary has the method. *)
Definition py_get (x : json) (key : string) (dflt : json) : attempt json :=
  match x with
  | JDict d => Returns (default dflt (d !! key))
  | _ => Fails AttributeError
  end.

(** The truth value of a JSON value. *)
Definition py_bool (x : json) : bool :=
  match x with
  | JNull => false
  | JBool b => b
  | JInt z => bool_decide (z ≠ 0)
  | JFloat (S754_zero _) => false
  | JFloat _ => true
  | JStr s => bool_decide (s ≠ "")
  | JList l => bool_decide (l ≠ [])
  | JDict d => bool_decide (size d ≠ 0%nat)
  end.

(** [isinstance(x, str)] *)
Definition is_str (x : json) : bool :=
  match x with
  | JStr _ => true
  | _ => false
  end.

(** [x == s] for a string literal [s]: no other kind of value equals a
    string. *)
Definition eq_str (x : json) (s : string) : bool :=
  match x with
  | JStr s' => bool_decide (s' = s)
  | _ => false
  end.

(** Whether [json.dumps] with [allow_nan=False] takes a value: a float
    that is NaN or infinite, at any depth, makes it raise [ValueError]. *)
Fixpoint json_finite (x : json) : bool :=
  match x with
  | JFloat S754_nan | JFloat (S754_infinity _) => false
  | JList l => forallb json_finite l
  | JDict d => map_fold (fun _ y acc => json_finite y && acc) true d
  | _ => true
  end.

(** [JSONResponse(content, status_code)], where the content holds a value
    of the request: the constructor renders the content at once, with
    [allow_nan=False].  The responses written as records in this file
    hold constants and strings alone, and always render. *)
Definition new_JSONResponse (content : json) (status_code : Z)
  : attempt JSONResponse :=
  if json_finite content
  then Returns {| content := content; status_code := status_code |}
  else Fails ValueError.

Section Handlers.

(** [REGISTRATION["name"]], a string, and what the [get_agent_info] branch
    reads beside it: [REGISTRATION.get("description", "")],
    [REGISTRATION.get("capabilities", [])] and the names of the
    services. *)
Variable agent_name : string.
Variables registration_description registration_capabilities : json.
Variable service_names : list json.

(** How an f-string shows a float, a list or a dictionary ([repr]), and
    [json.dumps]. *)
Variable py_repr : json → string.
Variable json_dumps : json → string.

Definition VERSION : string := "1.0.0".

(** [f"{x}"] *)
Definition py_str (x : json) : string :=
  match x with
  | JNull => "None"
  | JBool true => "True"
  | JBool false => "False"
  | JInt z => pretty z
  | JStr s => s
  | _ => py_repr x
  end.

(** What a handler hands back: a [JSONResponse], or a dictionary for the
    framework to serve. *)
Inductive reply : Type :=
  | Response (response : JSONResponse)
  | Body (body : json).

(** ** [a2a_ask] *)

(** [a2a_ask(request)], with [body] the parsed body of the request. *)
Definition a2a_ask (body : json) (now : string) : attempt reply :=
  q ← py_get body "question" JNull;
  question ←
    (if py_bool q then Returns q
     else m ← py_get body "message" JNull;
          if py_bool m then Returns m
          else py_get body "input" JNull);
  if negb (py_bool question) || negb (is_str question) then
    Returns (Response
      {| content :=
           JDict {[ "error" := JStr "Missing 'question' field";
                    "usage" := JDict {[ "method" := JStr "POST";
                                        "body" := JDict {[ "question" :=
                                          JStr "Your question here" ]} ]} ]};
         status_code := 400 |})
  else
    Returns (Body
      (JDict {[ "agent" := JStr agent_name;
                "question" := question;
                "answer" :=
                  JStr ("This is a starter template. Implement your answer logic for: "
                        +:+ py_str question);
                "timestamp" := JStr now ]})).

(** The refusal of [a2a_ask] and its answer to the question [s], as the
    handler builds them. *)
Definition missing_question : reply :=
  Response
    {| content :=
         JDict {[ "error" := JStr "Missing 'question' field";
                  "usage" := JDict {[ "method" := JStr "POST";
                                      "body" := JDict {[ "question" :=
                                        JStr "Your question here" ]} ]} ]};
       status_code := 400 |}.

Definition answer_to (s now : string) : reply :=
  Body
    (JDict {[ "agent" := JStr agent_name;
              "question" := JStr s;
              "answer" :=
                JStr ("This is a starter template. Implement your answer logic for: "
                      +:+ s);
              "timestamp" := JStr now ]}).

(** ** [mcp_handler] *)

Definition MCP_TOOLS : json :=
  JList
    [ JDict {[ "name" := JStr "get_agent_info";
               "description" := JStr "Get information about this agent";
               "inputSchema" :=
                 JDict {[ "type" := JStr "object";
                          "properties" := JDict ∅;
                          "required" := JList [] ]} ]};
      JDict {[ "name" := JStr "ping";
               "description" := JStr "Check if this agent is alive";
               "inputSchema" :=
                 JDict {[ "type" := JStr "object";
                          "properties" :=
                            JDict {[ "message" :=
                              JDict {[ "type" := JStr "string";
                                       "description" :=
                                         JStr "Optional echo message" ]} ]};
                          "required" := JList [] ]} ]} ].

Definition rpc_ok (req_id result : json) : attempt reply :=
  response ← new_JSONResponse
               (JDict {[ "jsonrpc" := JStr "2.0"; "id" := req_id;
                         "result" := result ]}) 200;
  Returns (Response response).

Definition rpc_err (req_id : json) (code : Z) (message : string)
  : attempt reply :=
  response ← new_JSONResponse
               (JDict {[ "jsonrpc" := JStr "2.0"; "id" := req_id;
                         "error" := JDict {[ "code" := JInt code;
                                             "message" := JStr message ]} ]})
               200;
  Returns (Response response).

(** The objects of the two kinds of replies. *)
Definition jsonrpc_result (req_id result : json) : json :=
  JDict {[ "jsonrpc" := JStr "2.0"; "id" := req_id; "result" := result ]}.

Definition jsonrpc_error (req_id : json) (code : Z) (message : string)
  : json :=
  JDict {[ "jsonrpc" := JStr "2.0"; "id" := req_id;
           "error" := JDict {[ "code" := JInt code;
                               "message" := JStr message ]} ]}.

(** [mcp_handler(request)]: [parsed] is the body as [request.json()]
    returns it, or [None] when that call raises. *)
Definition mcp_handler (parsed : option json) (now : string) : attempt reply :=
  match parsed with
  | None =>
      Returns (Response
        {| content := JDict {[ "jsonrpc" := JStr "2.0"; "id" := JNull;
                               "error" := JDict {[ "code" := JInt (-32700);
                                                   "message" := JStr "Parse error" ]} ]};
           status_code := 200 |})
  | Some body =>
      method ← py_get body "method" JNull;
      req_id ← py_get body "id" JNull;
      params ← py_get body "params" (JDict ∅);
      if eq_str method "initialize" then
        rpc_ok req_id
          (JDict {[ "protocolVersion" := JStr "2025-11-25";
                    "capabilities" := JDict {[ "tools" := JDict ∅ ]};
                    "serverInfo" :=
                      JDict {[ "name" := JStr (agent_name +:+ " MCP");
                               "version" := JStr VERSION ]} ]})
      else if eq_str method "tools/list" then
        rpc_ok req_id (JDict {[ "tools" := MCP_TOOLS ]})
      else if eq_str method "tools/call" then
        tool_name ← py_get params "name" JNull;
        args ← py_get params "arguments" (JDict ∅);
        result ←
          (if eq_str tool_name "get_agent_info" then
             Returns (Some
               (JDict {[ "name" := JStr agent_name;
                         "description" := registration_description;
                         "version" := JStr VERSION;
                         "capabilities" := registration_capabilities;
                         "services" := JList service_names ]}))
           else if eq_str tool_name "ping" then
             message ← py_get args "message"
                         (JStr ("Hello from " +:+ agent_name));
             Returns (Some
               (JDict {[ "pong" := JBool true;
                         "message" := message;
                         "timestamp" := JStr now ]}))
           else Returns None);
        match result with
        | Some result =>
            rpc_ok req_id
              (JDict {[ "content" :=
                 JList [ JDict {[ "type" := JStr "text";
                                  "text" := JStr (json_dumps result) ]} ] ]})
        | None =>
            rpc_err req_id (-32601)
              ("Tool not found: " +:+ py_str tool_name)
        end
      else
        rpc_err req_id (-32601)
          ("Method not supported: " +:+ py_str method)
  end.

End Handlers.

(** ** Requests at work *)

(** Stand-ins for [repr] and [json.dumps] in the examples. *)
Definition demo_repr (x : json) : string := "<repr>".
Definition demo_dumps (x : json) : string := "<json>".

(** A question in [message], beside an empty [question]. *)
Definition ask_by_message : gmap string json :=
  {[ "question" := JStr ""; "message" := JStr "hi" ]}.

(** A number in [question], beside a string in [message]. *)
Definition ask_by_number : gmap string json :=
  {[ "question" := JInt 42; "message" := JStr "hi" ]}.

(** A request for the list of tools whose [id] is NaN, which [json.loads]
    takes. *)
Definition nan_id_call : gmap string json :=
  {[ "jsonrpc" := JStr "2.0"; "id" := JFloat S754_nan;
     "method" := JStr "tools/list" ]}.

(** A call of the tool [ping] with no arguments. *)
Definition ping_params : gmap string json := {[ "name" := JStr "ping" ]}.

Definition ping_call : gmap string json :=
  {[ "jsonrpc" := JStr "2.0"; "id" := JInt 7;
     "method" := JStr "tools/call"; "params" := JDict ping_params ]}.

(** * Properties *)

(** ** The primitives *)

Lemma py_mod_ok (a b : Z) : b ≠ 0 → py_mod a b = Ok (a `mod` b).
Proof. intros Hb. unfold py_mod. by case_decide. Qed.

Lemma py_index_ok {A : Type} (l : list A) (i : Z) :
  0 ≤ i < Z.of_nat (length l) → py_index l i = Ok (Z.to_nat i).
Proof.
  intros Hi. unfold py_index.
  destruct (decide (i < 0)) as [Hneg|_]; [lia|].
  destruct (decide _) as [_|Hout]; [done|lia].
Qed.

Lemma py_getitem_ok {A : Type} (l : list A) (i : Z) (x : A) :
  0 ≤ i → l !! Z.to_nat i = Some x → py_getitem l i = Ok x.
Proof.
  intros Hi Hx. unfold py_getitem.
  apply lookup_lt_Some in Hx as Hlt.
  rewrite py_index_ok; [|lia]. simpl. by rewrite Hx.
Qed.

Lemma py_setitem_ok {A : Type} (l : list A) (i : Z) (x : A) :
  0 ≤ i < Z.of_nat (length l) →
  py_setitem l i x = Ok (<[Z.to_nat i := x]> l).
Proof. intros Hi. unfold py_setitem. by rewrite py_index_ok. Qed.

Lemma py_setitem_nil {A : Type} (i : Z) (x : A) :
  py_setitem [] i x = Raise IndexError.
Proof.
  unfold py_setitem, py_index. simpl.
  destruct (decide (i < 0)); (destruct (decide _); [lia|done]).
Qed.

(** ** Going around the ring *)

(** [d] slots behind [h] in a ring of [c] slots. *)
Lemma mod_behind (h d c : Z) :
  0 ≤ h < c → 0 ≤ d ≤ c →
  (h - d) `mod` c = if decide (d ≤ h) then h - d else h - d + c.
Proof.
  intros Hh Hd. case_decide.
  - apply Z.mod_small. lia.
  - rewrite <- (Z_mod_plus_full (h - d) 1 c).
    rewrite Z.mod_small; lia.
Qed.

(** [d] slots ahead of [h]. *)
Lemma mod_ahead (h d c : Z) :
  0 ≤ h < c → 0 ≤ d ≤ c →
  (h + d) `mod` c = if decide (h + d < c) then h + d else h + d - c.
Proof.
  intros Hh Hd. case_decide.
  - apply Z.mod_small. lia.
  - rewrite <- (Z_mod_plus_full (h + d) (-1) c).
    rewrite Z.mod_small; lia.
Qed.

(** ** Lists *)

Lemma lastn_length {A : Type} (n : nat) (l : list A) :
  length (lastn n l) = (n `min` length l)%nat.
Proof. unfold lastn. rewrite length_drop. lia. Qed.

Lemma lastn_all {A : Type} (n : nat) (l : list A) :
  (length l ≤ n)%nat → lastn n l = l.
Proof.
  intros Hn. unfold lastn.
  replace (length l - n)%nat with 0%nat by lia. done.
Qed.

Lemma lastn_0 {A : Type} (l : list A) : lastn 0 l = [].
Proof. unfold lastn. rewrite Nat.sub_0_r. apply drop_all. Qed.

Lemma lastn_lastn_app {A : Type} (c : nat) (l l' : list A) :
  lastn c (lastn c l ++ l') = lastn c (l ++ l').
Proof.
  unfold lastn.
  rewrite <- (drop_app_le l l' (length l - c)) by lia.
  rewrite drop_drop, length_drop, length_app. f_equal. lia.
Qed.

Lemma lastn_lastn {A : Type} (m c : nat) (l : list A) :
  (m ≤ c)%nat → lastn m (lastn c l) = lastn m l.
Proof.
  intros Hm. unfold lastn.
  rewrite drop_drop, length_drop. f_equal. lia.
Qed.

Lemma lastn_capped {A : Type} (n : Z) (l : list A) :
  lastn (Z.to_nat (Z.min n (Z.of_nat (length l)))) l = lastn (Z.to_nat n) l.
Proof.
  destruct (decide (n ≤ Z.of_nat (length l))) as [Hle|Hgt].
  - by rewrite Z.min_l by lia.
  - rewrite Z.min_r by lia. rewrite !lastn_all; [done|lia|lia].
Qed.

Lemma lastn_lookup {A : Type} (n i : nat) (l : list A) :
  lastn n l !! i = l !! (length l - n + i)%nat.
Proof. unfold lastn. apply lookup_drop. Qed.

(** ** The ring and the entries it retains *)

Section Ring.

Context {V : Type} `{Countable V} `{Hashable V}.

Implicit Types (self : @InteractionLog V) (r : list (entry V)).
Implicit Types (now : V) (kwargs : gmap string V).

Lemma represents_init (c : Z) :
  1 ≤ c →
  represents (V := V)
    {| _buffer := replicate (Z.to_nat c) None; _max_size := c;
       _head := 0; _count := 0 |} [].
Proof.
  intros Hc. unfold represents. simpl.
  rewrite length_replicate. repeat split; try lia; try done.
Qed.

Lemma represents_clear self r : represents self r → represents (clear self) [].
Proof.
  intros (Hc & Hlen & Hh & Hn & Hle & Hslots & Hst).
  unfold represents. simpl. repeat split; try lia; try done.
Qed.

(** On a well-formed log [add] returns, and it does what its body says. *)
Lemma add_ok self r now kwargs :
  represents self r →
  add now kwargs self =
    Ok {| _buffer := <[Z.to_nat (_head self) := Some (stamped now kwargs)]>
                       (_buffer self);
          _max_size := _max_size self;
          _head := (_head self + 1) `mod` _max_size self;
          _count := if decide (_count self < _max_size self)
                    then _count self + 1 else _count self |}.
Proof.
  intros (Hc & Hlen & Hh & Hn & Hle & Hslots & Hst).
  unfold add. rewrite py_setitem_ok by lia. simpl.
  rewrite py_mod_ok by lia. done.
Qed.

Lemma add_represents self self' r now kwargs :
  represents self r →
  add now kwargs self = Ok self' →
  represents self'
    (lastn (Z.to_nat (_max_size self)) (r ++ [stamped now kwargs])).
Proof.
  intros Hrep Hadd. rewrite (add_ok _ r) in Hadd by done.
  injection Hadd as <-.
  destruct Hrep as (Hc & Hlen & Hh & Hn & Hle & Hslots & Hst).
  unfold represents. simpl.
  set (c := _max_size self) in *.
  set (e := stamped now kwargs).
  rewrite (mod_ahead (_head self) 1 c) by lia.
  set (h' := if decide (_head self + 1 < c)
             then _head self + 1 else _head self + 1 - c).
  assert (Hh' : 0 ≤ h' < c ∧ (h' = _head self + 1 ∨ h' = _head self + 1 - c))
    by (subst h'; case_decide; lia).
  clearbody h'.
  set (n' := if decide (_count self < c) then _count self + 1 else _count self).
  assert (Hn' : (_count self < c ∧ n' = _count self + 1) ∨
                (_count self = c ∧ n' = c))
    by (subst n'; case_decide; lia).
  clearbody n'.
  split; [done|]. split; [by rewrite length_insert|].
  split; [lia|].
  split; [rewrite lastn_length, length_app; simpl; lia|].
  split; [lia|].
  split.
  - intros i x Hx. rewrite lastn_lookup in Hx.
    rewrite length_app in Hx. simpl in Hx.
    apply lookup_lt_Some in Hx as Hlt. rewrite length_app in Hlt. simpl in Hlt.
    replace (h' - n' + Z.of_nat i) with (h' - (n' - Z.of_nat i)) by lia.
    destruct Hn' as [[Hroom ->]|[Hfull ->]].
    + (* the ring still has room *)
      replace (length r + 1 - Z.to_nat c + i)%nat with i in Hx by lia.
      rewrite mod_behind by lia.
      destruct (decide (i = length r)) as [->|Hi].
      * rewrite lookup_app_r, Nat.sub_diag in Hx by lia.
        injection Hx as <-.
        replace (if decide _ then _ else _) with (_head self)
          by (case_decide; lia).
        apply list_lookup_insert_eq. lia.
      * rewrite lookup_app_l in Hx by lia.
        specialize (Hslots i x Hx).
        replace (_head self - _count self + Z.of_nat i)
          with (_head self - (_count self - Z.of_nat i)) in Hslots by lia.
        rewrite mod_behind in Hslots by lia.
        rewrite list_lookup_insert_ne; [|repeat case_decide; lia].
        rewrite <- Hslots. f_equal. repeat case_decide; lia.
    + (* the ring is full: the oldest entry goes *)
      replace (length r + 1 - Z.to_nat c + i)%nat with (S i) in Hx by lia.
      rewrite mod_behind by lia.
      destruct (decide (S i = length r)) as [Hi|Hi].
      * rewrite lookup_app_r in Hx by lia.
        replace (S i - length r)%nat with 0%nat in Hx by lia.
        injection Hx as <-.
        replace (if decide _ then _ else _) with (_head self)
          by (case_decide; lia).
        apply list_lookup_insert_eq. lia.
      * rewrite lookup_app_l in Hx by lia.
        specialize (Hslots (S i) x Hx).
        replace (_head self - _count self + Z.of_nat (S i))
          with (_head self - (_count self - Z.of_nat (S i))) in Hslots by lia.
        rewrite mod_behind in Hslots by lia.
        rewrite list_lookup_insert_ne; [|repeat case_decide; lia].
        rewrite <- Hslots. f_equal. repeat case_decide; lia.
  - unfold lastn. apply Forall_drop, Forall_app. split; [done|].
    apply Forall_singleton. by exists now, kwargs.
Qed.

(** The logical window: where the retained entries are read from. *)
Lemma window_slots self r (m : Z) :
  represents self r →
  0 ≤ m ≤ _count self →
  Forall2
    (fun (i : Z) (e : entry V) =>
       _buffer self
         !! Z.to_nat ((_head self - m + i) `mod` _max_size self)
       = Some (Some e))
    (range m) (lastn (Z.to_nat m) r).
Proof.
  intros (Hc & Hlen & Hh & Hn & Hle & Hslots & Hst) Hm.
  apply Forall2_same_length_lookup_2.
  - unfold range. rewrite length_seqZ, lastn_length. lia.
  - intros i x e Hx He. apply lookup_seqZ in Hx as [-> Hi].
    rewrite lastn_lookup in He.
    rewrite <- (Hslots _ _ He). do 3 f_equal. lia.
Qed.

(** The loop of [get_recent] appends the entries of the slots it visits. *)
Lemma get_recent_loop (buffer : list (option (entry V))) (c start : Z)
    (idxs : list Z) (es acc : list (entry V)) :
  1 ≤ c →
  Forall2
    (fun (i : Z) (e : entry V) =>
       buffer !! Z.to_nat ((start + i) `mod` c) = Some (Some e))
    idxs es →
  for_each (fun i result =>
      idx ← py_mod (start + i) c;
      entry ← py_getitem buffer idx;
      match entry with
      | Some e => Ok (result ++ [e])
      | None => Ok result
      end) idxs acc
  = Ok (acc ++ es).
Proof.
  intros Hc Hall. revert acc.
  induction Hall as [|i e idxs es Hslot _ IH]; intros acc; simpl.
  - by rewrite app_nil_r.
  - rewrite py_mod_ok by lia. simpl.
    rewrite (py_getitem_ok _ _ (Some e)); [|apply Z.mod_pos_bound; lia|done].
    simpl. rewrite IH. by rewrite <- app_assoc.
Qed.

(** [get_recent(n)] returns the last [min(n, count)] retained entries,
    oldest first; a negative [n] makes the window empty. *)
Lemma get_recent_spec self r (n : Z) :
  represents self r →
  get_recent n self = Ok (lastn (Z.to_nat (Z.min n (_count self))) r).
Proof.
  intros Hrep. pose proof Hrep as (Hc & Hlen & Hh & Hn & Hle & Hslots & Hst).
  unfold get_recent. rewrite py_mod_ok by lia. simpl.
  destruct (decide (n < 0)) as [Hneg|Hpos].
  - replace (range _) with (@nil Z)
      by (unfold range, seqZ; by replace (Z.to_nat _) with 0%nat by lia).
    replace (Z.to_nat _) with 0%nat by lia. by rewrite lastn_0.
  - set (m := Z.min n (_count self)).
    rewrite (get_recent_loop _ _ _ _ (lastn (Z.to_nat m) r)); [done|lia|].
    eapply Forall2_impl; [apply (window_slots _ _ m Hrep); lia|].
    intros i e <-. simpl. do 2 f_equal.
    rewrite Zplus_mod_idemp_l.
    replace (_head self - m + _max_size self + i)
      with (_head self - m + i + 1 * _max_size self) by lia.
    apply Z_mod_plus_full.
Qed.

(** The loop of [get_stats] tallies the entries of the slots it visits,
    and stops with [TypeError] at the first [type] that cannot be a key. *)
Lemma get_stats_loop (buffer : list (option (entry V))) (c h n : Z)
    (idxs : list Z) (es : list (entry V)) (acc : gmap V Z) :
  1 ≤ c →
  Forall2
    (fun (i : Z) (e : entry V) =>
       buffer !! Z.to_nat ((h - n + i) `mod` c) = Some (Some e))
    idxs es →
  for_each (fun i by_type =>
      idx ← py_mod (h - n + i + c) c;
      entry ← py_getitem buffer idx;
      match entry with
      | Some e =>
          if truthy entry then
            match e !! "type" with
            | Some t =>
                if hashable t
                then Ok (<[t := default 0 (by_type !! t) + 1]> by_type)
                else Raise TypeError
            | None => Ok by_type
            end
          else Ok by_type
      | None => Ok by_type
      end) idxs acc
  = if types_hashable es then Ok (foldl tally acc es) else Raise TypeError.
Proof.
  intros Hc Hall. revert acc.
  induction Hall as [|i e idxs es Hslot _ IH]; intros acc; simpl; [done|].
  rewrite py_mod_ok by lia. simpl.
  replace (h - n + i + c) with (h - n + i + 1 * c) by lia.
  rewrite Z_mod_plus_full.
  rewrite (py_getitem_ok _ _ (Some e)); [|apply Z.mod_pos_bound; lia|done].
  cbn [mbind outcome_bind truthy].
  assert (Hstep : tally acc e =
                    match e !! "type" with
                    | Some t => <[t := default 0 (acc !! t) + 1]> acc
                    | None => acc
                    end) by done.
  case_bool_decide as Hne.
  - destruct (e !! "type") as [t|]; cbn [mbind outcome_bind andb].
    + destruct (hashable t); cbn [mbind outcome_bind andb]; [|done].
      by rewrite IH, Hstep.
    + by rewrite IH, Hstep.
  - subst e. rewrite lookup_empty in *. cbn [mbind outcome_bind andb].
    by rewrite IH, Hstep.
Qed.

(** [get_stats()] reports [count] and the tally of the retained entries
    when their [type] fields can all be keys, and raises [TypeError] when
    one of them cannot. *)
Lemma get_stats_spec self r :
  represents self r →
  get_stats self =
    if types_hashable r
    then Ok {| total := _count self; by_type := foldl tally ∅ r |}
    else Raise TypeError.
Proof.
  intros Hrep. pose proof Hrep as (Hc & Hlen & Hh & Hn & Hle & Hslots & Hst).
  unfold get_stats.
  rewrite (get_stats_loop _ _ _ _ _ r).
  - by destruct (types_hashable r).
  - lia.
  - pose proof (window_slots _ _ (_count self) Hrep) as Hw.
    rewrite lastn_all in Hw by lia. apply Hw. lia.
Qed.

(** ** The tally of [get_stats] *)

Lemma tally_lookup (bt : gmap V Z) (e : entry V) (t : V) :
  tally bt e !! t =
    if decide (e !! "type" = Some t)
    then Some (default 0 (bt !! t) + 1) else bt !! t.
Proof.
  unfold tally. destruct (e !! "type") as [t'|] eqn:Ht.
  - case_decide as Heq.
    + injection Heq as ->. by rewrite lookup_insert_eq.
    + rewrite lookup_insert_ne; [done|congruence].
  - by case_decide.
Qed.

Lemma type_count_cons (t : V) (e : entry V) (es : list (entry V)) :
  type_count t (e :: es) =
    (if decide (e !! "type" = Some t) then 1 else 0) + type_count t es.
Proof.
  unfold type_count. case_decide.
  - rewrite filter_cons_True by done. simpl. lia.
  - rewrite filter_cons_False by done. lia.
Qed.

Lemma type_count_nonneg (t : V) (es : list (entry V)) : 0 ≤ type_count t es.
Proof. unfold type_count. lia. Qed.

Lemma untyped_count_cons (e : entry V) (es : list (entry V)) :
  untyped_count (e :: es) =
    (if decide (e !! "type" = None) then 1 else 0) + untyped_count es.
Proof.
  unfold untyped_count. case_decide.
  - rewrite filter_cons_True by done. simpl. lia.
  - rewrite filter_cons_False by done. lia.
Qed.

(** A bucket holds the number of tallied entries of its type, on top of
    what it held before; a type that no entry carries gets no bucket. *)
Lemma foldl_tally_lookup (es : list (entry V)) (bt : gmap V Z) (t : V) :
  foldl tally bt es !! t =
    if decide (type_count t es = 0) then bt !! t
    else Some (default 0 (bt !! t) + type_count t es).
Proof.
  revert bt. induction es as [|e es IH]; intros bt.
  - done.
  - simpl. rewrite IH, type_count_cons, tally_lookup.
    pose proof (type_count_nonneg t es).
    repeat case_decide; try lia; try done; simpl; f_equal; lia.
Qed.

Lemma sum_counts_insert (bt : gmap V Z) (t : V) (k : Z) :
  sum_counts (<[t := k]> bt) = sum_counts bt - default 0 (bt !! t) + k.
Proof.
  unfold sum_counts.
  assert (Hcomm : ∀ (m : gmap V Z) (j1 j2 : V) (z1 z2 y : Z),
             j1 ≠ j2 → m !! j1 = Some z1 → m !! j2 = Some z2 →
             z1 + (z2 + y) = z2 + (z1 + y)) by (intros; lia).
  destruct (bt !! t) as [v|] eqn:Ht; simpl.
  - rewrite <- insert_delete_eq.
    rewrite map_fold_insert_L; [|by eauto|by rewrite lookup_delete_eq].
    rewrite (map_fold_delete_L _ _ t v bt); [lia|by eauto|done].
  - rewrite map_fold_insert_L; [lia|by eauto|done].
Qed.

Lemma sum_counts_tally (bt : gmap V Z) (e : entry V) :
  sum_counts (tally bt e) =
    sum_counts bt + (if decide (e !! "type" = None) then 0 else 1).
Proof.
  unfold tally. destruct (e !! "type") as [t|].
  - rewrite sum_counts_insert. rewrite decide_False by done. lia.
  - rewrite decide_True by done. lia.
Qed.

(** Every tallied entry lands in one bucket, or has no [type]. *)
Lemma sum_counts_foldl (es : list (entry V)) (bt : gmap V Z) :
  sum_counts (foldl tally bt es) + untyped_count es =
    sum_counts bt + Z.of_nat (length es).
Proof.
  revert bt. induction es as [|e es IH]; intros bt; simpl.
  - unfold untyped_count. simpl. lia.
  - rewrite untyped_count_cons.
    specialize (IH (tally bt e)). rewrite sum_counts_tally in IH.
    case_decide; lia.
Qed.

Lemma sum_counts_empty : sum_counts (V := V) ∅ = 0.
Proof. unfold sum_counts. apply map_fold_empty. Qed.

(** ** Sequences of calls *)

Lemma entries_app (adds adds' : list (V * gmap string V)) :
  entries (adds ++ adds') = entries adds ++ entries adds'.
Proof. unfold entries. apply map_app. Qed.

(** The calls of a list all return, and the log then retains the last
    [capacity] entries of what it retained and what the calls built. *)
Lemma add_all_represents (adds : list (V * gmap string V)) self r :
  represents self r →
  ∃ self',
    add_all adds self = Ok self' ∧
    _max_size self' = _max_size self ∧
    represents self'
      (lastn (Z.to_nat (_max_size self)) (r ++ entries adds)).
Proof.
  revert self r. induction adds as [|[now kwargs] adds IH]; intros self r Hrep.
  - exists self. simpl. rewrite app_nil_r. split; [done|]. split; [done|].
    rewrite lastn_all; [done|].
    destruct Hrep as (_ & _ & _ & Hn & Hle & _). lia.
  - simpl. pose proof (add_ok _ _ now kwargs Hrep) as Hadd.
    pose proof (add_represents _ _ _ _ _ Hrep Hadd) as Hrep'.
    rewrite Hadd. simpl.
    destruct (IH _ _ Hrep') as (self' & Hrun & Hcap & Hrep'').
    exists self'. split; [done|]. split; [done|].
    simpl in Hrep''. rewrite lastn_lastn_app, <- app_assoc in Hrep''.
    done.
Qed.

(** Every reachable state of a log of positive capacity is well formed. *)
Lemma reachable_represents (c : Z) self :
  1 ≤ c → reachable c self →
  _max_size self = c ∧ ∃ r, represents self r.
Proof.
  intros Hc Hreach.
  induction Hreach as [self Hinit|now kwargs self self' _ IH Hadd|self _ IH].
  - injection Hinit as <-. split; [done|]. exists []. by apply represents_init.
  - destruct IH as [Hcap [r Hrep]].
    pose proof (add_represents _ _ _ _ _ Hrep Hadd) as Hrep'.
    rewrite (add_ok _ _ _ _ Hrep) in Hadd. injection Hadd as <-.
    split; [done|]. eauto.
  - destruct IH as [Hcap [r Hrep]]. split; [done|].
    exists []. by eapply represents_clear.
Qed.

End Ring.

(** ** Logs built by a sequence of [add] calls *)

Section Fresh.

Context {V : Type} `{Countable V} `{Hashable V}.

(** A new log of positive capacity takes every [add] of a sequence and
    then retains the last [capacity] entries built. *)
Lemma fresh_adds_represents (c : Z) (adds : list (V * gmap string V)) :
  1 ≤ c →
  ∃ self,
    (self0 ← init c; add_all adds self0) = Ok self ∧
    _max_size self = c ∧
    represents self (lastn (Z.to_nat c) (entries adds)).
Proof.
  intros Hc. simpl.
  destruct (add_all_represents adds _ [] (represents_init c Hc))
    as (self & Hrun & Hcap & Hrep).
  exists self. done.
Qed.

Lemma represents_count (self : @InteractionLog V) (r : list (entry V)) :
  represents self r → _count self = Z.of_nat (length r).
Proof. by intros (_ & _ & _ & Hn & _). Qed.

(** What [get_recent] returns on a well-formed log, in terms of the
    entries it retains. *)
Lemma recent_of_retained (self : @InteractionLog V) (r : list (entry V)) :
  represents self r →
  ∀ n : Z, get_recent n self = Ok (lastn (Z.to_nat n) r).
Proof.
  intros Hrep n. pose proof (represents_count _ _ Hrep) as Hcount.
  rewrite (get_recent_spec _ _ n Hrep), Hcount. by rewrite lastn_capped.
Qed.

(** What [get_stats] returns on it. *)
Lemma stats_of_retained (self : @InteractionLog V) (r : list (entry V)) :
  represents self r →
  (types_hashable r = true →
   ∃ st,
     get_stats self = Ok st ∧
     total st = Z.of_nat (length r) ∧
     sum_counts (by_type st) + untyped_count r = total st ∧
     ∀ t : V,
       by_type st !! t =
         if decide (type_count t r = 0) then None else Some (type_count t r)) ∧
  (types_hashable r = false → get_stats self = Raise TypeError).
Proof.
  intros Hrep. pose proof (represents_count _ _ Hrep) as Hcount. split.
  - intros Hkeys. eexists.
    split; [by rewrite (get_stats_spec _ _ Hrep), Hkeys|]. simpl.
    split; [done|]. split.
    + rewrite sum_counts_foldl, sum_counts_empty. lia.
    + intros t. rewrite foldl_tally_lookup, lookup_empty. simpl.
      by case_decide.
  - intros Hkeys. by rewrite (get_stats_spec _ _ Hrep), Hkeys.
Qed.

(** A log without slots takes no entry. *)
Lemma add_without_slots (self : @InteractionLog V) (now : V)
    (kwargs : gmap string V) :
  _buffer self = [] → add now kwargs self = Raise IndexError.
Proof. intros Hb. unfold add. by rewrite Hb, py_setitem_nil. Qed.

Lemma stamped_kwargs (now : V) (kwargs : gmap string V) (k : string) (v : V) :
  kwargs !! k = Some v → stamped now kwargs !! k = Some v.
Proof. intros Hk. unfold stamped. by apply lookup_union_Some_l. Qed.

Lemma stamped_other (now : V) (kwargs : gmap string V) (k : string) :
  k ≠ "timestamp" → stamped now kwargs !! k = kwargs !! k.
Proof.
  intros Hk. unfold stamped.
  rewrite lookup_union_l; [done|]. by apply lookup_singleton_ne.
Qed.

Lemma stamped_clock (now : V) (kwargs : gmap string V) :
  kwargs !! "timestamp" = None → stamped now kwargs !! "timestamp" = Some now.
Proof.
  intros Hk. unfold stamped.
  rewrite lookup_union_r by done. apply lookup_singleton_eq.
Qed.

Lemma stamped_has_timestamp (now : V) (kwargs : gmap string V) :
  is_Some (stamped now kwargs !! "timestamp").
Proof.
  destruct (kwargs !! "timestamp") as [v|] eqn:Hk.
  - exists v. by apply stamped_kwargs.
  - exists now. by apply stamped_clock.
Qed.

End Fresh.

Lemma full_log_reachable : reachable 2 full_log.
Proof.
  eapply (reach_add 2 "t2" {["tool" := "getPrice"]}).
  - eapply (reach_add 2 "t1" {["type" := "mcp"]}).
    + by apply reach_init.
    + by vm_compute.
  - by vm_compute.
Qed.

(** ** Logs of capacity 0 or less *)

(** The constructor takes any integer.  With capacity 0 the start of the
    window of [get_recent] is a remainder modulo 0, whatever [n] is;
    [get_stats] loops over an empty range and never gets that far. *)
Example zero_capacity_get_recent :
  (self ← init (V := string) 0; get_recent (-1) self)
  = Raise ZeroDivisionError.
Proof. reflexivity. Qed.

Example zero_capacity_get_stats :
  (self ← init (V := string) 0; get_stats self)
  = Ok {| total := 0; by_type := ∅ |}.
Proof. reflexivity. Qed.

(** With a negative capacity the remainder is defined and the reads are
    empty. *)
Example negative_capacity_get_recent :
  (self ← init (V := string) (-2); get_recent 5 self) = Ok [].
Proof. reflexivity. Qed.

(** ** The ring wraps *)

(** The third entry of a log of capacity 2 lands in slot 0. *)
Example third_add_wraps :
  add "t3" {["type" := "a2a"]} full_log
  = Ok {| _buffer := [Some (stamped "t3" {["type" := "a2a"]});
                      Some (stamped "t2" {["tool" := "getPrice"]})];
          _max_size := 2;
          _head := 1;
          _count := 2 |}.
Proof. by vm_compute. Qed.

(** * The claims *)

(** C1. On a log of capacity [c >= 1], after any sequence of [add]
    calls, [get_recent(n)] for [n >= 0] returns the last
    [min(n, count)] entries added, in the order of the calls (the oldest
    of the window first, the newest last), where [count] is the number of
    calls capped at [c]; [n] may exceed [count] and [c]; the length of the
    result is [min(n, count)], and [get_recent(0)] is empty. *)
Theorem get_recent_last_entries_in_order {V : Type} `{Countable V}
    (c : Z) (adds : list (V * gmap string V)) (n : Z) :
  1 ≤ c →
  0 ≤ n →
  ∃ self recent,
    (self0 ← init c; add_all adds self0) = Ok self ∧
    _count self = Z.min (Z.of_nat (length adds)) c ∧
    get_recent n self = Ok recent ∧
    recent = lastn (Z.to_nat (Z.min n (_count self))) (entries adds) ∧
    Z.of_nat (length recent) = Z.min n (_count self) ∧
    get_recent 0 self = Ok [].
Proof.
  intros Hc Hn.
  destruct (fresh_adds_represents c adds Hc) as (self & Hrun & Hcap & Hrep).
  pose proof (represents_count _ _ Hrep) as Hcount.
  rewrite lastn_length in Hcount. unfold entries in Hcount.
  rewrite length_map in Hcount.
  exists self, (lastn (Z.to_nat (Z.min n (_count self))) (entries adds)).
  split; [done|]. split; [lia|].
  split.
  { rewrite (get_recent_spec _ _ n Hrep). f_equal.
    apply lastn_lastn. lia. }
  split; [done|].
  split.
  { rewrite lastn_length. unfold entries. rewrite length_map. lia. }
  rewrite (get_recent_spec _ _ 0 Hrep).
  replace (Z.to_nat _) with 0%nat by lia. by rewrite lastn_0.
Qed.

Lemma get_recent_last_entries_in_order_witness :
  1 ≤ 3 ∧ 0 ≤ 2 ∧
  ∃ self recent,
    (self0 ← init 3;
     add_all [("t1", {["type" := "A"]}); ("t2", {["type" := "B"]});
              ("t3", {["type" := "C"]}); ("t4", {["type" := "D"]})] self0)
      = Ok self ∧
    _count self = Z.min (Z.of_nat 4) 3 ∧
    get_recent 2 self = Ok recent ∧
    recent = lastn (Z.to_nat (Z.min 2 (_count self)))
               (entries [("t1", {["type" := "A"]}); ("t2", {["type" := "B"]});
                         ("t3", {["type" := "C"]}); ("t4", {["type" := "D"]})]) ∧
    Z.of_nat (length recent) = Z.min 2 (_count self) ∧
    get_recent 0 self = Ok [].
Proof.
  split; [lia|]. split; [lia|].
  apply (get_recent_last_entries_in_order (V := string) 3
           [("t1", {["type" := "A"]}); ("t2", {["type" := "B"]});
            ("t3", {["type" := "C"]}); ("t4", {["type" := "D"]})] 2); lia.
Defined.

(** C2. On a log of capacity [c >= 1] that is full ([count == capacity]),
    [add] writes over the oldest retained entry, which is the one in the
    slot [head], and [count] stays at the capacity; from then on the entry
    written over is out of what [get_recent] returns, for every [n], and
    out of what [get_stats] counts.  With capacity 3, after adding A, B, C
    and D, [get_recent(3)] and [get_recent(10)] both return B, C, D. *)
Theorem add_on_full_log_overwrites_oldest
    {V : Type} `{Countable V} `{Hashable V} :
  (∀ (c : Z) (self : @InteractionLog V) (now : V) (kwargs : gmap string V),
     1 ≤ c →
     reachable c self →
     _count self = _max_size self →
     ∃ oldest rest self',
       get_recent (_count self) self = Ok (oldest :: rest) ∧
       _buffer self !! Z.to_nat (_head self) = Some (Some oldest) ∧
       add now kwargs self = Ok self' ∧
       _buffer self' =
         <[Z.to_nat (_head self) := Some (stamped now kwargs)]> (_buffer self) ∧
       _max_size self' = c ∧
       _count self' = c ∧
       (∀ n : Z,
          get_recent n self' =
            Ok (lastn (Z.to_nat n) (rest ++ [stamped now kwargs]))) ∧
       (types_hashable (rest ++ [stamped now kwargs]) = true →
          ∃ st,
            get_stats self' = Ok st ∧
            total st = c ∧
            ∀ t : V,
              by_type st !! t =
                if decide (type_count t (rest ++ [stamped now kwargs]) = 0)
                then None
                else Some (type_count t (rest ++ [stamped now kwargs]))) ∧
       (types_hashable (rest ++ [stamped now kwargs]) = false →
          get_stats self' = Raise TypeError)) ∧
  (∀ (tA tB tC tD : V) (A B C D : gmap string V),
     ∃ self,
       (self0 ← init 3;
        add_all [(tA, A); (tB, B); (tC, C); (tD, D)] self0) = Ok self ∧
       get_recent 3 self = Ok [stamped tB B; stamped tC C; stamped tD D] ∧
       get_recent 10 self = Ok [stamped tB B; stamped tC C; stamped tD D]).
Proof.
  split.
  - intros c self now kwargs Hc Hreach Hfull.
    destruct (reachable_represents c self Hc Hreach) as [Hcap [r Hrep]].
    pose proof (represents_count _ _ Hrep) as Hcount.
    destruct r as [|oldest rest]; [simpl in Hcount; lia|].
    pose proof (add_ok _ _ now kwargs Hrep) as Hadd.
    pose proof (add_represents _ _ _ _ _ Hrep Hadd) as Hrep'.
    replace (lastn _ _) with (rest ++ [stamped now kwargs]) in Hrep'.
    2:{ unfold lastn. rewrite length_app. simpl in *.
        by replace (_ - _)%nat with 1%nat by lia. }
    pose proof (recent_of_retained _ _ Hrep') as Hrecent.
    destruct (stats_of_retained _ _ Hrep') as [Hstats Hraise].
    eexists oldest, rest, _.
    split; [by rewrite (recent_of_retained _ _ Hrep), Hcount, Nat2Z.id,
              lastn_all|].
    split.
    { destruct Hrep as (_ & _ & Hh & _ & _ & Hslots & _).
      rewrite <- (Hslots 0%nat oldest eq_refl). do 2 f_equal.
      rewrite Hfull.
      replace (_head self - _max_size self + Z.of_nat 0)
        with (_head self - _max_size self) by lia.
      rewrite mod_behind by lia.
      destruct (decide (_max_size self ≤ _head self)); lia. }
    split; [done|]. split; [done|]. split; [done|].
    split; [simpl; destruct (decide (_count self < _max_size self)); lia|].
    split; [done|]. split; [|done].
    intros Hkeys. destruct (Hstats Hkeys) as (st & Hst & Htot & _ & Hby).
    exists st. split; [done|]. split; [|done].
    rewrite Htot, length_app. simpl in *. lia.
  - intros tA tB tC tD A B C D.
    destruct (fresh_adds_represents 3 [(tA, A); (tB, B); (tC, C); (tD, D)])
      as (self & Hrun & _ & Hrep); [lia|].
    exists self. split; [done|].
    by rewrite !(recent_of_retained _ _ Hrep).
Qed.

Lemma add_on_full_log_overwrites_oldest_witness :
  1 ≤ 2 ∧ reachable 2 full_log ∧ _count full_log = _max_size full_log ∧
  ∃ oldest rest self',
    get_recent (_count full_log) full_log = Ok (oldest :: rest) ∧
    _buffer full_log !! Z.to_nat (_head full_log) = Some (Some oldest) ∧
    add "t3" {["type" := "a2a"]} full_log = Ok self' ∧
    _buffer self' =
      <[Z.to_nat (_head full_log) := Some (stamped "t3" {["type" := "a2a"]})]>
        (_buffer full_log) ∧
    _max_size self' = 2 ∧
    _count self' = 2 ∧
    (∀ n : Z,
       get_recent n self' =
         Ok (lastn (Z.to_nat n) (rest ++ [stamped "t3" {["type" := "a2a"]}]))) ∧
    (types_hashable (rest ++ [stamped "t3" {["type" := "a2a"]}]) = true →
       ∃ st,
         get_stats self' = Ok st ∧
         total st = 2 ∧
         ∀ t : string,
           by_type st !! t =
             if decide
                  (type_count t (rest ++ [stamped "t3" {["type" := "a2a"]}]) = 0)
             then None
             else Some
                    (type_count t (rest ++ [stamped "t3" {["type" := "a2a"]}]))) ∧
    (types_hashable (rest ++ [stamped "t3" {["type" := "a2a"]}]) = false →
       get_stats self' = Raise TypeError).
Proof.
  split; [lia|]. split; [exact full_log_reachable|]. split; [reflexivity|].
  apply (proj1 (add_on_full_log_overwrites_oldest (V := string))
           2 full_log "t3" {["type" := "a2a"]});
    [lia|exact full_log_reachable|reflexivity].
Defined.

(** C3, as the code has it.  Constructing a log with a capacity
    [max_size <= 0] returns: the log has no slot, keeps the capacity as it
    was given and starts with [head] and [count] at 0.  The failure comes
    later: every [add] on this log raises [IndexError]. *)
Theorem init_nonpositive_capacity_returns {V : Type} `{Countable V}
    (max_size : Z) :
  max_size ≤ 0 →
  ∃ self : @InteractionLog V,
    init max_size = Ok self ∧
    _buffer self = [] ∧
    _max_size self = max_size ∧
    _head self = 0 ∧
    _count self = 0 ∧
    ∀ (now : V) (kwargs : gmap string V),
      add now kwargs self = Raise IndexError.
Proof.
  intros Hm. eexists. split; [reflexivity|]. simpl.
  replace (Z.to_nat max_size) with 0%nat by lia. simpl.
  repeat (split; [done|]).
  intros now kwargs. apply add_without_slots. simpl.
  by replace (Z.to_nat max_size) with 0%nat by lia.
Qed.

Lemma init_nonpositive_capacity_returns_witness :
  -5 ≤ 0 ∧
  ∃ self : @InteractionLog string,
    init (-5) = Ok self ∧
    _buffer self = [] ∧
    _max_size self = -5 ∧
    _head self = 0 ∧
    _count self = 0 ∧
    ∀ (now : string) (kwargs : gmap string string),
      add now kwargs self = Raise IndexError.
Proof.
  split; [lia|].
  apply (init_nonpositive_capacity_returns (V := string) (-5)); lia.
Defined.

(** C3, as the claim has it, fails: constructing a log of capacity 0
    raises nothing. *)
Lemma init_zero_capacity_does_not_raise :
  ¬ (0 ≤ 0 → ∃ e : exn, init (V := string) 0 = Raise e).
Proof. intros Hraise. by destruct (Hraise (Z.le_refl 0)) as [e He]. Qed.

(** C4, as the code has it.  On a log of capacity [c >= 1], after [k]
    calls of [add] whose retained entries carry [type] values that can be
    dictionary keys, [get_stats()] reports [total == k] when [k <= c] and
    [total == c] when [k > c]; when a retained entry carries a [type]
    that cannot be a key, [get_stats()] raises [TypeError]. *)
Theorem get_stats_total_after_adds {V : Type} `{Countable V} `{Hashable V}
    (c : Z) (adds : list (V * gmap string V)) :
  1 ≤ c →
  ∃ self,
    (self0 ← init c; add_all adds self0) = Ok self ∧
    (types_hashable (lastn (Z.to_nat c) (entries adds)) = true →
       ∃ st,
         get_stats self = Ok st ∧
         (Z.of_nat (length adds) ≤ c → total st = Z.of_nat (length adds)) ∧
         (c < Z.of_nat (length adds) → total st = c)) ∧
    (types_hashable (lastn (Z.to_nat c) (entries adds)) = false →
       get_stats self = Raise TypeError).
Proof.
  intros Hc.
  destruct (fresh_adds_represents c adds Hc) as (self & Hrun & Hcap & Hrep).
  pose proof (represents_count _ _ Hrep) as Hcount.
  rewrite lastn_length in Hcount. unfold entries in Hcount.
  rewrite length_map in Hcount.
  exists self. split; [done|].
  destruct (stats_of_retained _ _ Hrep) as [Hstats Hraise].
  split; [|done].
  intros Hkeys. destruct (Hstats Hkeys) as (st & Hst & Htot & _).
  exists st. split; [done|].
  rewrite lastn_length in Htot. unfold entries in Htot.
  rewrite length_map in Htot. split; lia.
Qed.

Lemma get_stats_total_after_adds_witness :
  1 ≤ 2 ∧
  ∃ self,
    (self0 ← init 2;
     add_all [("t1", {["type" := "mcp"]}); ("t2", ∅);
              ("t3", {["type" := "a2a"]})] self0) = Ok self ∧
    (types_hashable
       (lastn (Z.to_nat 2)
          (entries [("t1", {["type" := "mcp"]}); ("t2", ∅);
                    ("t3", {["type" := "a2a"]})])) = true →
       ∃ st,
         get_stats self = Ok st ∧
         (Z.of_nat 3 ≤ 2 → total st = Z.of_nat 3) ∧
         (2 < Z.of_nat 3 → total st = 2)) ∧
    (types_hashable
       (lastn (Z.to_nat 2)
          (entries [("t1", {["type" := "mcp"]}); ("t2", ∅);
                    ("t3", {["type" := "a2a"]})])) = false →
       get_stats self = Raise TypeError).
Proof.
  split; [lia|].
  apply (get_stats_total_after_adds (V := string) 2
           [("t1", {["type" := "mcp"]}); ("t2", ∅);
            ("t3", {["type" := "a2a"]})]); lia.
Defined.

(** C4, as the claim has it, fails: [add] takes a list as the [type] of
    an entry, and after this one call [get_stats()] raises [TypeError] and
    reports no total. *)
Lemma get_stats_raises_on_list_type :
  (self0 ← init 3;
   self ← add_all [(Str "t1", {["type" := Lst ["x"]]})] self0;
   get_stats self) = Raise TypeError ∧
  ¬ ∃ st : stats,
      (self0 ← init 3;
       self ← add_all [(Str "t1", {["type" := Lst ["x"]]})] self0;
       get_stats self) = Ok st ∧
      total st = 1.
Proof.
  assert (Hraise :
    (self0 ← init 3;
     self ← add_all [(Str "t1", {["type" := Lst ["x"]]})] self0;
     get_stats self) = Raise TypeError) by (by vm_compute).
  split; [exact Hraise|]. intros (st & Hst & _).
  rewrite Hraise in Hst. discriminate.
Qed.

(** C5, as the code has it.  On every reachable state of a log of
    capacity [c >= 1] whose retained entries carry [type] values that can
    be dictionary keys, [get_stats()] returns a total and buckets such
    that the sum of the buckets plus the number of retained entries
    without a [type] field is the total; each bucket holds the number of
    retained entries of its type, so an entry without a [type] is in the
    total and in no bucket.  When a retained entry carries a [type] that
    cannot be a key, [get_stats()] raises [TypeError].  With capacity 10,
    three entries of type mcp and two of type a2a give a total of 5 and
    the buckets mcp: 3, a2a: 2. *)
Theorem get_stats_buckets_sum_to_total :
  (∀ (V : Type) `(Countable V) `(Hashable V) (c : Z)
     (self : @InteractionLog V),
     1 ≤ c →
     reachable c self →
     ∃ retained,
       get_recent (_count self) self = Ok retained ∧
       (types_hashable retained = true →
          ∃ st,
            get_stats self = Ok st ∧
            total st = Z.of_nat (length retained) ∧
            sum_counts (by_type st) + untyped_count retained = total st ∧
            ∀ t : V,
              by_type st !! t =
                if decide (type_count t retained = 0) then None
                else Some (type_count t retained)) ∧
       (types_hashable retained = false →
          get_stats self = Raise TypeError)) ∧
  (∀ t1 t2 t3 t4 t5 : string,
     (self0 ← init 10;
      self ← add_all [(t1, {["type" := "mcp"]}); (t2, {["type" := "mcp"]});
                      (t3, {["type" := "mcp"]}); (t4, {["type" := "a2a"]});
                      (t5, {["type" := "a2a"]})] self0;
      get_stats self)
     = Ok {| total := 5; by_type := {["mcp" := 3; "a2a" := 2]} |}).
Proof.
  split.
  - intros V ? ? ? c self Hc Hreach.
    destruct (reachable_represents c self Hc Hreach) as [Hcap [r Hrep]].
    pose proof (represents_count _ _ Hrep) as Hcount.
    pose proof (recent_of_retained _ _ Hrep) as Hrecent.
    exists r. split; [by rewrite Hrecent, Hcount, Nat2Z.id, lastn_all|].
    by apply stats_of_retained.
  - intros t1 t2 t3 t4 t5. by vm_compute.
Qed.

Lemma get_stats_buckets_sum_to_total_witness :
  1 ≤ 2 ∧ reachable 2 full_log ∧
  ∃ retained,
    get_recent (_count full_log) full_log = Ok retained ∧
    (types_hashable retained = true →
       ∃ st,
         get_stats full_log = Ok st ∧
         total st = Z.of_nat (length retained) ∧
         sum_counts (by_type st) + untyped_count retained = total st ∧
         ∀ t : string,
           by_type st !! t =
             if decide (type_count t retained = 0) then None
             else Some (type_count t retained)) ∧
    (types_hashable retained = false →
       get_stats full_log = Raise TypeError).
Proof.
  split; [lia|]. split; [exact full_log_reachable|].
  apply (proj1 get_stats_buckets_sum_to_total string _ _ _ 2 full_log);
    [lia|exact full_log_reachable].
Defined.

(** C5, as the claim has it, fails: the log of capacity 10 that has taken
    an entry of type mcp and an entry whose [type] is a list is a
    reachable state, and [get_stats()] raises [TypeError] on it: there is
    no report whose buckets could be summed. *)
Lemma get_stats_has_no_report_with_list_type :
  (self0 ← init 10;
   add_all [(Str "t1", {["type" := Str "mcp"]});
            (Str "t2", {["type" := Lst ["a"; "b"]]})] self0) = Ok mixed_log ∧
  reachable 10 mixed_log ∧
  get_stats mixed_log = Raise TypeError ∧
  ¬ ∃ st : stats, get_stats mixed_log = Ok st.
Proof.
  assert (Hraise : get_stats mixed_log = Raise TypeError) by (by vm_compute).
  split; [by vm_compute|]. split.
  - eapply (reach_add 10 (Str "t2") {["type" := Lst ["a"; "b"]]}).
    + eapply (reach_add 10 (Str "t1") {["type" := Str "mcp"]}).
      * by apply reach_init.
      * by vm_compute.
    + by vm_compute.
  - split; [exact Hraise|]. intros [st Hst].
    rewrite Hraise in Hst. discriminate.
Qed.

(** C6. On every reachable state of a log of capacity [c >= 1], after
    [clear()] the reads are empty: [get_recent(n)] is the empty list for
    every [n], and [get_stats()] is a total of 0 with no bucket, whatever
    the log held before. *)
Theorem clear_then_reads_are_empty {V : Type} `{Countable V} `{Hashable V}
    (c : Z) (self : @InteractionLog V) :
  1 ≤ c →
  reachable c self →
  (∀ n : Z, get_recent n (clear self) = Ok []) ∧
  get_stats (clear self) = Ok {| total := 0; by_type := ∅ |}.
Proof.
  intros Hc Hreach.
  destruct (reachable_represents c self Hc Hreach) as [_ [r Hrep]].
  pose proof (represents_clear _ _ Hrep) as Hclear.
  split.
  - intros n. rewrite (get_recent_spec _ _ n Hclear). done.
  - by rewrite (get_stats_spec _ _ Hclear).
Qed.

Lemma clear_then_reads_are_empty_witness :
  1 ≤ 2 ∧ reachable 2 full_log ∧
  (∀ n : Z, get_recent n (clear full_log) = Ok []) ∧
  get_stats (clear full_log) = Ok {| total := 0; by_type := ∅ |}.
Proof.
  split; [lia|]. split; [exact full_log_reachable|].
  apply (clear_then_reads_are_empty 2 full_log);
    [lia|exact full_log_reachable].
Defined.

(** C7. [clear()] sets [head] and [count] to 0 and leaves the capacity and
    the slot array as they are, so the old entries stay in their slots;
    no read shows them: after [clear()] and any further [add] calls, the
    reads see the entries of these calls alone. *)
Theorem clear_resets_cursors_only {V : Type} `{Countable V} `{Hashable V}
    (c : Z) (self : @InteractionLog V) :
  1 ≤ c →
  reachable c self →
  _buffer (clear self) = _buffer self ∧
  _max_size (clear self) = _max_size self ∧
  _head (clear self) = 0 ∧
  _count (clear self) = 0 ∧
  ∀ adds : list (V * gmap string V),
    let retained := lastn (Z.to_nat c) (entries adds) in
    ∃ self',
      add_all adds (clear self) = Ok self' ∧
      (∀ n : Z, get_recent n self' = Ok (lastn (Z.to_nat n) retained)) ∧
      (types_hashable retained = true →
         ∃ st,
           get_stats self' = Ok st ∧
           total st = Z.of_nat (length retained) ∧
           ∀ t : V,
             by_type st !! t =
               if decide (type_count t retained = 0) then None
               else Some (type_count t retained)) ∧
      (types_hashable retained = false →
         get_stats self' = Raise TypeError).
Proof.
  intros Hc Hreach. repeat (split; [done|]).
  intros adds retained.
  destruct (reachable_represents c self Hc Hreach) as [Hcap [r Hrep]].
  pose proof (represents_clear _ _ Hrep) as Hclear.
  destruct (add_all_represents adds _ _ Hclear) as (self' & Hrun & _ & Hrep').
  simpl in Hrep'. rewrite Hcap in Hrep'. fold retained in Hrep'.
  pose proof (recent_of_retained _ _ Hrep') as Hrecent.
  destruct (stats_of_retained _ _ Hrep') as [Hstats Hraise].
  exists self'. split; [done|]. split; [done|]. split; [|done].
  intros Hkeys. destruct (Hstats Hkeys) as (st & Hst & Htot & _ & Hby).
  by exists st.
Qed.

Lemma clear_resets_cursors_only_witness :
  1 ≤ 2 ∧ reachable 2 full_log ∧
  _buffer (clear full_log) = _buffer full_log ∧
  _max_size (clear full_log) = _max_size full_log ∧
  _head (clear full_log) = 0 ∧
  _count (clear full_log) = 0 ∧
  ∀ adds : list (string * gmap string string),
    let retained := lastn (Z.to_nat 2) (entries adds) in
    ∃ self',
      add_all adds (clear full_log) = Ok self' ∧
      (∀ n : Z, get_recent n self' = Ok (lastn (Z.to_nat n) retained)) ∧
      (types_hashable retained = true →
         ∃ st,
           get_stats self' = Ok st ∧
           total st = Z.of_nat (length retained) ∧
           ∀ t : string,
             by_type st !! t =
               if decide (type_count t retained = 0) then None
               else Some (type_count t retained)) ∧
      (types_hashable retained = false →
         get_stats self' = Raise TypeError).
Proof.
  split; [lia|]. split; [exact full_log_reachable|].
  apply (clear_resets_cursors_only 2 full_log);
    [lia|exact full_log_reachable].
Defined.

(** C8, as the code has it.  On every reachable state of a log of capacity
    [c >= 1], [add] builds the entry before it stores it and stores it in
    the slot [head]: the entry holds every field of the caller with the
    caller's value, every other field but [timestamp] is absent, and the
    [timestamp] field holds the reading of the clock when the caller
    supplied no [timestamp] of their own.  Every entry [get_recent]
    returns has a [timestamp] field. *)
Theorem add_stores_stamped_entry {V : Type} `{Countable V}
    (c : Z) (self : @InteractionLog V) (now : V) (kwargs : gmap string V) :
  1 ≤ c →
  reachable c self →
  ∃ self',
    add now kwargs self = Ok self' ∧
    _buffer self' !! Z.to_nat (_head self) = Some (Some (stamped now kwargs)) ∧
    get_recent 1 self' = Ok [stamped now kwargs] ∧
    (∀ (k : string) (v : V),
       kwargs !! k = Some v → stamped now kwargs !! k = Some v) ∧
    (∀ k : string,
       k ≠ "timestamp" → stamped now kwargs !! k = kwargs !! k) ∧
    (kwargs !! "timestamp" = None →
       stamped now kwargs !! "timestamp" = Some now) ∧
    (∀ (n : Z) (recent : list (entry V)) (e : entry V),
       get_recent n self' = Ok recent → e ∈ recent →
       is_Some (e !! "timestamp")).
Proof.
  intros Hc Hreach.
  destruct (reachable_represents c self Hc Hreach) as [Hcap [r Hrep]].
  pose proof (add_ok _ _ now kwargs Hrep) as Hadd.
  pose proof (add_represents _ _ _ _ _ Hrep Hadd) as Hrep'.
  pose proof (recent_of_retained _ _ Hrep') as Hrecent.
  eexists. split; [exact Hadd|].
  split.
  { simpl. apply list_lookup_insert_eq.
    destruct Hrep as (_ & Hlen & Hh & _). lia. }
  split.
  { rewrite Hrecent. f_equal. rewrite lastn_lastn by lia.
    unfold lastn. rewrite length_app. simpl.
    replace (_ - _)%nat with (length r) by lia. apply drop_app_length. }
  split; [by apply stamped_kwargs|].
  split; [by apply stamped_other|].
  split; [by apply stamped_clock|].
  intros n recent e Hget He. rewrite Hrecent in Hget. injection Hget as <-.
  destruct Hrep' as (_ & _ & _ & _ & _ & _ & Hst).
  apply (subseteq_drop _ _ e) in He.
  rewrite Forall_forall in Hst.
  destruct (Hst e He) as (now' & kwargs' & ->).
  apply stamped_has_timestamp.
Qed.

Lemma add_stores_stamped_entry_witness :
  1 ≤ 2 ∧ reachable 2 full_log ∧
  ∃ self',
    add "t3" {["type" := "a2a"]} full_log = Ok self' ∧
    _buffer self' !! Z.to_nat (_head full_log)
      = Some (Some (stamped "t3" {["type" := "a2a"]})) ∧
    get_recent 1 self' = Ok [stamped "t3" {["type" := "a2a"]}] ∧
    (∀ (k : string) (v : string),
       ({["type" := "a2a"]} : gmap string string) !! k = Some v →
       stamped "t3" {["type" := "a2a"]} !! k = Some v) ∧
    (∀ k : string,
       k ≠ "timestamp" →
       stamped "t3" {["type" := "a2a"]} !! k
         = ({["type" := "a2a"]} : gmap string string) !! k) ∧
    (({["type" := "a2a"]} : gmap string string) !! "timestamp" = None →
       stamped "t3" {["type" := "a2a"]} !! "timestamp" = Some "t3") ∧
    (∀ (n : Z) (recent : list (entry string)) (e : entry string),
       get_recent n self' = Ok recent → e ∈ recent →
       is_Some (e !! "timestamp")).
Proof.
  split; [lia|]. split; [exact full_log_reachable|].
  apply (add_stores_stamped_entry 2 full_log "t3" {["type" := "a2a"]});
    [lia|exact full_log_reachable].
Defined.

(** C8, as the claim has it, fails: a [timestamp] among the caller's
    fields replaces the reading of the clock, and the entry [get_recent]
    returns carries the caller's value. *)
Lemma caller_timestamp_replaces_clock :
  ∃ e : entry string,
    (self0 ← init 1;
     self ← add "2026-01-01T00:00:00+00:00" {["timestamp" := "caller"]} self0;
     get_recent 1 self) = Ok [e] ∧
    e !! "timestamp" = Some "caller" ∧
    e !! "timestamp" ≠ Some "2026-01-01T00:00:00+00:00".
Proof.
  exists {["timestamp" := "caller"]}.
  split; [by vm_compute|]. split; [by vm_compute|].
  by vm_compute.
Qed.

(** C10. On every log state with a capacity other than 0, [get_recent(n)]
    with a negative [n] returns the empty list: the window
    [min(n, count)] is negative and the loop runs over an empty range. *)
Theorem get_recent_negative_is_empty {V : Type} `{Countable V}
    (self : @InteractionLog V) (n : Z) :
  _max_size self ≠ 0 →
  n < 0 →
  get_recent n self = Ok [].
Proof.
  intros Hc Hn. unfold get_recent.
  rewrite py_mod_ok by done. simpl.
  unfold range, seqZ. by replace (Z.to_nat _) with 0%nat by lia.
Qed.

Lemma get_recent_negative_is_empty_witness :
  _max_size full_log ≠ 0 ∧ -1 < 0 ∧ get_recent (-1) full_log = Ok [].
Proof.
  split; [by vm_compute|]. split; [lia|].
  apply (get_recent_negative_is_empty full_log (-1)); [by vm_compute|lia].
Defined.

(** * Further properties of the log *)

Lemma young_log_reachable : reachable 3 young_log.
Proof.
  eapply (reach_add 3 "t1" {["type" := "mcp"]}).
  - by apply reach_init.
  - by vm_compute.
Qed.

Section Layout.

Context {V : Type} `{Countable V}.

(** Until the ring has been filled, the entries start at slot 0. *)
Lemma reachable_head_count (c : Z) (self : @InteractionLog V) :
  1 ≤ c → reachable c self →
  _count self < _max_size self → _head self = _count self.
Proof.
  intros Hc Hreach.
  induction Hreach as [self Hinit|now kwargs self self' Hreach IH Hadd|self _ IH].
  - by injection Hinit as <-.
  - destruct (reachable_represents c self Hc Hreach) as [Hcap [r Hrep]].
    rewrite (add_ok _ _ _ _ Hrep) in Hadd. injection Hadd as <-. simpl.
    destruct Hrep as (_ & _ & Hh & _ & Hle & _).
    destruct (decide (_count self < _max_size self)) as [Hroom|Hfull]; [|lia].
    intros Hroom'. rewrite IH by done.
    apply Z.mod_small. lia.
  - done.
Qed.

Lemma foldl_tally_snoc (r : list (entry V)) (e : entry V) :
  foldl tally ∅ (r ++ [e]) = tally (foldl tally ∅ r) e.
Proof. by rewrite foldl_app. Qed.

Lemma type_count_le_length (t : V) (r : list (entry V)) :
  type_count t r ≤ Z.of_nat (length r).
Proof.
  unfold type_count.
  pose proof (length_filter (fun e : entry V => e !! "type" = Some t) r). lia.
Qed.

End Layout.

(** X1. Every reachable state of a log of capacity [c >= 1] keeps the
    capacity it was built with, [c] slots, [0 <= head < c] and
    [0 <= count <= c]: the log never grows. *)
Theorem reachable_bounds {V : Type} `{Countable V}
    (c : Z) (self : @InteractionLog V) :
  1 ≤ c →
  reachable c self →
  _max_size self = c ∧
  Z.of_nat (length (_buffer self)) = c ∧
  0 ≤ _head self < c ∧
  0 ≤ _count self ≤ c.
Proof.
  intros Hc Hreach.
  destruct (reachable_represents c self Hc Hreach)
    as [Hcap (r & _ & Hlen & Hh & Hn & Hle & _)].
  repeat split; lia.
Qed.

Lemma reachable_bounds_witness :
  1 ≤ 2 ∧ reachable 2 full_log ∧
  _max_size full_log = 2 ∧
  Z.of_nat (length (_buffer full_log)) = 2 ∧
  0 ≤ _head full_log < 2 ∧
  0 ≤ _count full_log ≤ 2.
Proof.
  split; [lia|]. split; [exact full_log_reachable|].
  apply (reachable_bounds 2 full_log); [lia|exact full_log_reachable].
Defined.

(** X2. On every reachable state of a log of capacity [c >= 1], [add]
    returns a log and [get_recent(n)] returns a list for every integer
    [n]: neither raises.  [get_stats()] returns its report when the
    [type] values of the retained entries can all be dictionary keys, and
    raises [TypeError] when one of them cannot; it raises nothing else. *)
Theorem methods_raise_only_on_unhashable_type
    {V : Type} `{Countable V} `{Hashable V}
    (c : Z) (self : @InteractionLog V) :
  1 ≤ c →
  reachable c self →
  (∀ (now : V) (kwargs : gmap string V),
     ∃ self', add now kwargs self = Ok self') ∧
  (∀ n : Z, ∃ recent, get_recent n self = Ok recent) ∧
  ∃ retained,
    get_recent (_count self) self = Ok retained ∧
    (types_hashable retained = true → ∃ st, get_stats self = Ok st) ∧
    (types_hashable retained = false → get_stats self = Raise TypeError).
Proof.
  intros Hc Hreach.
  destruct (reachable_represents c self Hc Hreach) as [_ [r Hrep]].
  pose proof (represents_count _ _ Hrep) as Hcount.
  split; [|split].
  - intros now kwargs. eexists. by apply (add_ok _ r).
  - intros n. eexists. by apply (get_recent_spec _ r).
  - exists r.
    split; [by rewrite (recent_of_retained _ _ Hrep), Hcount, Nat2Z.id,
              lastn_all|].
    destruct (stats_of_retained _ _ Hrep) as [Hstats Hraise].
    split; [|done].
    intros Hkeys. destruct (Hstats Hkeys) as (st & Hst & _). by exists st.
Qed.

Lemma methods_raise_only_on_unhashable_type_witness :
  1 ≤ 2 ∧ reachable 2 full_log ∧
  (∀ (now : string) (kwargs : gmap string string),
     ∃ self', add now kwargs full_log = Ok self') ∧
  (∀ n : Z, ∃ recent, get_recent n full_log = Ok recent) ∧
  ∃ retained,
    get_recent (_count full_log) full_log = Ok retained ∧
    (types_hashable retained = true → ∃ st, get_stats full_log = Ok st) ∧
    (types_hashable retained = false → get_stats full_log = Raise TypeError).
Proof.
  split; [lia|]. split; [exact full_log_reachable|].
  apply (methods_raise_only_on_unhashable_type 2 full_log);
    [lia|exact full_log_reachable].
Defined.

(** X3. On every reachable state of a log of capacity [c >= 1] that
    retains an entry, the newest entry sits in the slot
    [(head - 1 + capacity) % capacity], and it is what [get_recent(1)]
    returns. *)
Theorem newest_entry_is_behind_head {V : Type} `{Countable V}
    (c : Z) (self : @InteractionLog V) :
  1 ≤ c →
  reachable c self →
  1 ≤ _count self →
  ∃ newest,
    _buffer self !! Z.to_nat ((_head self - 1 + _max_size self) `mod` _max_size self)
      = Some (Some newest) ∧
    get_recent 1 self = Ok [newest].
Proof.
  intros Hc Hreach Hone.
  destruct (reachable_represents c self Hc Hreach) as [Hcap [r Hrep]].
  pose proof (represents_count _ _ Hrep) as Hcount.
  destruct (lookup_lt_is_Some_2 r (length r - 1)%nat) as [newest Hnew]; [lia|].
  exists newest. split.
  - destruct Hrep as (_ & _ & _ & _ & _ & Hslots & _).
    rewrite <- (Hslots _ _ Hnew). do 2 f_equal.
    replace (_head self - 1 + _max_size self)
      with (_head self - 1 + 1 * _max_size self) by lia.
    rewrite Z_mod_plus_full. f_equal. lia.
  - rewrite (get_recent_spec _ _ 1 Hrep). f_equal.
    replace (Z.to_nat _) with 1%nat by lia.
    unfold lastn. apply list_eq. intros i.
    rewrite lookup_drop. destruct i as [|i]; simpl.
    + by rewrite Nat.add_0_r.
    + apply lookup_ge_None_2. lia.
Qed.

Lemma newest_entry_is_behind_head_witness :
  1 ≤ 2 ∧ reachable 2 full_log ∧ 1 ≤ _count full_log ∧
  ∃ newest,
    _buffer full_log
      !! Z.to_nat ((_head full_log - 1 + _max_size full_log)
                     `mod` _max_size full_log)
      = Some (Some newest) ∧
    get_recent 1 full_log = Ok [newest].
Proof.
  split; [lia|]. split; [exact full_log_reachable|]. split; [by vm_compute|].
  apply (newest_entry_is_behind_head 2 full_log);
    [lia|exact full_log_reachable|by vm_compute].
Defined.

(** X4. On every reachable state of a log of capacity [c >= 1] that is
    not full, [head] equals [count] and the retained entries are the
    contents of the slots [0 .. count - 1], in this order. *)
Theorem not_full_log_starts_at_slot_0 {V : Type} `{Countable V}
    (c : Z) (self : @InteractionLog V) :
  1 ≤ c →
  reachable c self →
  _count self < _max_size self →
  _head self = _count self ∧
  get_recent (_count self) self
    = Ok (omap id (take (Z.to_nat (_count self)) (_buffer self))) ∧
  ∀ i : nat, Z.of_nat i < _count self → is_Some (_buffer self !! i ≫= id).
Proof.
  intros Hc Hreach Hroom.
  pose proof (reachable_head_count c self Hc Hreach Hroom) as Hhead.
  destruct (reachable_represents c self Hc Hreach) as [Hcap [r Hrep]].
  pose proof (represents_count _ _ Hrep) as Hcount.
  assert (Hslot : ∀ (i : nat) e, r !! i = Some e →
                    _buffer self !! i = Some (Some e)).
  { intros i e He. apply lookup_lt_Some in He as Hlt.
    destruct Hrep as (_ & _ & _ & _ & _ & Hslots & _).
    rewrite <- (Hslots _ _ He). do 2 f_equal.
    rewrite Hhead, Z.mod_small; lia. }
  assert (Htake : take (length r) (_buffer self) = Some <$> r).
  { apply list_eq. intros i. rewrite list_lookup_fmap.
    destruct (decide (i < length r)%nat) as [Hlt|Hge].
    - rewrite lookup_take_lt by done.
      destruct (lookup_lt_is_Some_2 r i Hlt) as [e He].
      by rewrite He, (Hslot _ _ He).
    - rewrite lookup_take_ge by lia.
      by rewrite lookup_ge_None_2 by lia. }
  split; [done|]. split.
  - rewrite (get_recent_spec _ _ _ Hrep). f_equal.
    rewrite Z.min_id, Hcount, Nat2Z.id, Htake, lastn_all by lia.
    induction r as [|e r' IHr]; [done|]. simpl. f_equal.
    clear -r'. induction r' as [|e' r'' IH']; [done|]. simpl. by f_equal.
  - intros i Hi.
    destruct (lookup_lt_is_Some_2 r i) as [e He]; [lia|].
    rewrite (Hslot _ _ He). by eexists.
Qed.

Lemma not_full_log_starts_at_slot_0_witness :
  1 ≤ 3 ∧ reachable 3 young_log ∧ _count young_log < _max_size young_log ∧
  _head young_log = _count young_log ∧
  get_recent (_count young_log) young_log
    = Ok (omap id (take (Z.to_nat (_count young_log)) (_buffer young_log))) ∧
  ∀ i : nat,
    Z.of_nat i < _count young_log → is_Some (_buffer young_log !! i ≫= id).
Proof.
  split; [lia|]. split; [exact young_log_reachable|]. split; [by vm_compute|].
  apply (not_full_log_starts_at_slot_0 3 young_log);
    [lia|exact young_log_reachable|by vm_compute].
Defined.

(** X5. On every reachable state of a log of capacity [c >= 1], the
    windows of [get_recent] nest: for [n <= m], [get_recent(n)] is the
    last [n] entries of [get_recent(m)]; and from [n = count] on, a larger
    [n] returns the same list. *)
Theorem get_recent_windows_nest {V : Type} `{Countable V}
    (c : Z) (self : @InteractionLog V) (n m : Z) :
  1 ≤ c →
  reachable c self →
  n ≤ m →
  ∃ wide,
    get_recent m self = Ok wide ∧
    get_recent n self = Ok (lastn (Z.to_nat n) wide) ∧
    (_count self ≤ n → get_recent n self = Ok wide).
Proof.
  intros Hc Hreach Hnm.
  destruct (reachable_represents c self Hc Hreach) as [_ [r Hrep]].
  pose proof (represents_count _ _ Hrep) as Hcount.
  pose proof (recent_of_retained _ _ Hrep) as Hrecent.
  exists (lastn (Z.to_nat m) r). rewrite !Hrecent.
  split; [done|]. split.
  - by rewrite lastn_lastn by lia.
  - intros Hall. by rewrite !lastn_all by lia.
Qed.

Lemma get_recent_windows_nest_witness :
  1 ≤ 2 ∧ reachable 2 full_log ∧ 1 ≤ 2 ∧
  ∃ wide,
    get_recent 2 full_log = Ok wide ∧
    get_recent 1 full_log = Ok (lastn (Z.to_nat 1) wide) ∧
    (_count full_log ≤ 1 → get_recent 1 full_log = Ok wide).
Proof.
  split; [lia|]. split; [exact full_log_reachable|]. split; [lia|].
  apply (get_recent_windows_nest 2 full_log 1 2);
    [lia|exact full_log_reachable|lia].
Defined.

(** X6. [clear()] is a reset as far as the reads can tell: on every
    reachable state of a log of capacity [c >= 1], after [clear()] and any
    sequence of [add] calls, [get_recent] and [get_stats] return what they
    return on a new log of the same capacity after the same calls. *)
Theorem clear_is_observational_reset {V : Type} `{Countable V} `{Hashable V}
    (c : Z) (self : @InteractionLog V) (adds : list (V * gmap string V)) :
  1 ≤ c →
  reachable c self →
  (∀ n : Z,
     (self' ← add_all adds (clear self); get_recent n self')
     = (self0 ← init c; self' ← add_all adds self0; get_recent n self')) ∧
  (self' ← add_all adds (clear self); get_stats self')
  = (self0 ← init c; self' ← add_all adds self0; get_stats self').
Proof.
  intros Hc Hreach.
  destruct (reachable_represents c self Hc Hreach) as [Hcap [r Hrep]].
  pose proof (represents_clear _ _ Hrep) as Hclear.
  destruct (add_all_represents adds _ _ Hclear) as (s1 & Hrun1 & _ & Hrep1).
  destruct (fresh_adds_represents c adds Hc) as (s2 & Hrun2 & _ & Hrep2).
  simpl in Hrep1, Hrun2. rewrite Hcap in Hrep1.
  simpl. rewrite Hrun1, Hrun2. simpl. split.
  - intros n.
    by rewrite (get_recent_spec _ _ n Hrep1), (get_recent_spec _ _ n Hrep2),
      (represents_count _ _ Hrep1), (represents_count _ _ Hrep2).
  - by rewrite (get_stats_spec _ _ Hrep1), (get_stats_spec _ _ Hrep2),
      (represents_count _ _ Hrep1), (represents_count _ _ Hrep2).
Qed.

Lemma clear_is_observational_reset_witness :
  1 ≤ 2 ∧ reachable 2 full_log ∧
  (∀ n : Z,
     (self' ← add_all [("t3", {["type" := "a2a"]})] (clear full_log);
      get_recent n self')
     = (self0 ← init 2; self' ← add_all [("t3", {["type" := "a2a"]})] self0;
        get_recent n self')) ∧
  (self' ← add_all [("t3", {["type" := "a2a"]})] (clear full_log);
   get_stats self')
  = (self0 ← init 2; self' ← add_all [("t3", {["type" := "a2a"]})] self0;
     get_stats self').
Proof.
  split; [lia|]. split; [exact full_log_reachable|].
  apply (clear_is_observational_reset 2 full_log
           [("t3", {["type" := "a2a"]})]);
    [lia|exact full_log_reachable].
Defined.

(** X7. A log built with a capacity [c <= 0] never leaves its first
    state: it has no slot, [head] and [count] stay 0, every [add] raises
    [IndexError] and [get_stats()] reports a total of 0 with no bucket;
    [get_recent(n)] raises [ZeroDivisionError] for every [n] when [c] is 0
    and returns the empty list for every [n] when [c] is negative. *)
Theorem nonpositive_capacity_log_stays_empty
    {V : Type} `{Countable V} `{Hashable V}
    (c : Z) (self : @InteractionLog V) :
  c ≤ 0 →
  reachable c self →
  self = {| _buffer := []; _max_size := c; _head := 0; _count := 0 |} ∧
  (∀ (now : V) (kwargs : gmap string V),
     add now kwargs self = Raise IndexError) ∧
  get_stats self = Ok {| total := 0; by_type := ∅ |} ∧
  (c = 0 → ∀ n : Z, get_recent n self = Raise ZeroDivisionError) ∧
  (c < 0 → ∀ n : Z, get_recent n self = Ok []).
Proof.
  intros Hc Hreach.
  assert (Hself : self = {| _buffer := []; _max_size := c;
                            _head := 0; _count := 0 |}).
  { induction Hreach as [self Hinit|now kwargs self self' _ IH Hadd|self _ IH].
    - injection Hinit as <-. by replace (Z.to_nat c) with 0%nat by lia.
    - rewrite add_without_slots in Hadd; [done|by rewrite IH].
    - by rewrite IH. }
  subst self. split; [done|].
  split; [intros now kwargs; by apply add_without_slots|].
  split; [done|]. split.
  - intros -> n. done.
  - intros Hneg n. unfold get_recent. simpl.
    rewrite py_mod_ok by lia. simpl.
    unfold range, seqZ. by replace (Z.to_nat _) with 0%nat by lia.
Qed.

Lemma nonpositive_capacity_log_stays_empty_witness :
  0 ≤ 0 ∧
  reachable 0 (clear {| _buffer := []; _max_size := 0;
                        _head := 0; _count := 0 |} : @InteractionLog string) ∧
  clear {| _buffer := []; _max_size := 0; _head := 0; _count := 0 |}
    = ({| _buffer := []; _max_size := 0; _head := 0; _count := 0 |}
       : @InteractionLog string) ∧
  (∀ (now : string) (kwargs : gmap string string),
     add now kwargs
       (clear {| _buffer := []; _max_size := 0; _head := 0; _count := 0 |})
     = Raise IndexError) ∧
  get_stats (V := string)
    (clear {| _buffer := []; _max_size := 0; _head := 0; _count := 0 |})
    = Ok {| total := 0; by_type := ∅ |} ∧
  (0 = 0 → ∀ n : Z,
     get_recent (V := string) n
       (clear {| _buffer := []; _max_size := 0; _head := 0; _count := 0 |})
     = Raise ZeroDivisionError) ∧
  (0 < 0 → ∀ n : Z,
     get_recent (V := string) n
       (clear {| _buffer := []; _max_size := 0; _head := 0; _count := 0 |})
     = Ok []).
Proof.
  assert (Hreach : reachable 0
            (clear {| _buffer := []; _max_size := 0;
                      _head := 0; _count := 0 |} : @InteractionLog string))
    by (apply reach_clear, reach_init; reflexivity).
  split; [lia|]. split; [exact Hreach|].
  apply (nonpositive_capacity_log_stays_empty (V := string) 0 _);
    [lia|exact Hreach].
Defined.

Section Steps.

Context {V : Type} `{Countable V}.

(** The cursors after the calls of a list. *)
Lemma add_all_cursors (adds : list (V * gmap string V))
    (self self' : @InteractionLog V) (r : list (entry V)) :
  represents self r →
  add_all adds self = Ok self' →
  _head self' = (_head self + Z.of_nat (length adds)) `mod` _max_size self ∧
  _count self' = Z.min (_count self + Z.of_nat (length adds)) (_max_size self).
Proof.
  revert self r. induction adds as [|[now kwargs] adds IH]; intros self r Hrep Hrun.
  - simpl in Hrun. injection Hrun as <-. simpl.
    destruct Hrep as (_ & _ & Hh & _ & Hle & _).
    rewrite Z.add_0_r, Z.mod_small by lia. lia.
  - simpl in Hrun. pose proof (add_ok _ _ now kwargs Hrep) as Hadd.
    pose proof (add_represents _ _ _ _ _ Hrep Hadd) as Hrep'.
    rewrite Hadd in Hrun. simpl in Hrun.
    destruct (IH _ _ Hrep' Hrun) as [Hhead Hcount]. simpl in Hhead, Hcount.
    destruct Hrep as (Hc & _ & Hh & Hn & Hle & _).
    split.
    + rewrite Hhead, Zplus_mod_idemp_l. f_equal.
      rewrite length_cons. lia.
    + rewrite Hcount, length_cons.
      destruct (decide (_count self < _max_size self)); lia.
Qed.

End Steps.

(** X8. On every reachable state of a log of capacity [c >= 1], [add]
    writes the slot [head] and no other: the number of slots and the
    capacity are unchanged, every other slot keeps its content, and
    [count] grows by one at most. *)
Theorem add_writes_one_slot {V : Type} `{Countable V}
    (c : Z) (self self' : @InteractionLog V) (now : V)
    (kwargs : gmap string V) :
  1 ≤ c →
  reachable c self →
  add now kwargs self = Ok self' →
  _max_size self' = _max_size self ∧
  length (_buffer self') = length (_buffer self) ∧
  _buffer self' !! Z.to_nat (_head self) = Some (Some (stamped now kwargs)) ∧
  (∀ i : nat, i ≠ Z.to_nat (_head self) →
     _buffer self' !! i = _buffer self !! i) ∧
  _count self ≤ _count self' ≤ _count self + 1.
Proof.
  intros Hc Hreach Hadd.
  destruct (reachable_represents c self Hc Hreach) as [_ [r Hrep]].
  rewrite (add_ok _ _ _ _ Hrep) in Hadd. injection Hadd as <-. simpl.
  destruct Hrep as (_ & Hlen & Hh & _).
  split; [done|]. split; [by rewrite length_insert|].
  split; [apply list_lookup_insert_eq; lia|].
  split; [intros i Hi; by apply list_lookup_insert_ne|].
  destruct (decide (_count self < _max_size self)); lia.
Qed.

Lemma add_writes_one_slot_witness :
  1 ≤ 3 ∧ reachable 3 young_log ∧
  add "t2" ∅ young_log
    = Ok {| _buffer := [Some (stamped "t1" {["type" := "mcp"]});
                        Some (stamped "t2" ∅); None];
            _max_size := 3; _head := 2; _count := 2 |} ∧
  _max_size {| _buffer := [Some (stamped "t1" {["type" := "mcp"]});
                           Some (stamped "t2" ∅); None];
               _max_size := 3; _head := 2; _count := 2 |}
    = _max_size young_log ∧
  length (_buffer {| _buffer := [Some (stamped "t1" {["type" := "mcp"]});
                                 Some (stamped "t2" ∅); None];
                     _max_size := 3; _head := 2; _count := 2 |})
    = length (_buffer young_log) ∧
  _buffer {| _buffer := [Some (stamped "t1" {["type" := "mcp"]});
                         Some (stamped "t2" ∅); None];
             _max_size := 3; _head := 2; _count := 2 |}
    !! Z.to_nat (_head young_log) = Some (Some (stamped "t2" ∅)) ∧
  (∀ i : nat, i ≠ Z.to_nat (_head young_log) →
     _buffer {| _buffer := [Some (stamped "t1" {["type" := "mcp"]});
                            Some (stamped "t2" ∅); None];
                _max_size := 3; _head := 2; _count := 2 |} !! i
     = _buffer young_log !! i) ∧
  _count young_log
    ≤ _count {| _buffer := [Some (stamped "t1" {["type" := "mcp"]});
                            Some (stamped "t2" (∅ : gmap string string)); None];
                _max_size := 3; _head := 2; _count := 2 |}
    ≤ _count young_log + 1.
Proof.
  assert (Hadd : add "t2" ∅ young_log
            = Ok {| _buffer := [Some (stamped "t1" {["type" := "mcp"]});
                                Some (stamped "t2" ∅); None];
                    _max_size := 3; _head := 2; _count := 2 |})
    by (by vm_compute).
  split; [lia|]. split; [exact young_log_reachable|]. split; [exact Hadd|].
  apply (add_writes_one_slot 3 young_log _ "t2" ∅);
    [lia|exact young_log_reachable|exact Hadd].
Defined.

(** X9. On every reachable state of a log of capacity [c >= 1], every
    bucket of [get_stats()] holds a count between 1 and the total: no
    type is listed with a count of 0. *)
Theorem get_stats_buckets_are_positive {V : Type} `{Countable V} `{Hashable V}
    (c : Z) (self : @InteractionLog V) (st : stats) (t : V) (k : Z) :
  1 ≤ c →
  reachable c self →
  get_stats self = Ok st →
  by_type st !! t = Some k →
  1 ≤ k ≤ total st.
Proof.
  intros Hc Hreach Hst Hk.
  destruct (reachable_represents c self Hc Hreach) as [_ [r Hrep]].
  destruct (stats_of_retained _ _ Hrep) as [Hstats Hraise].
  destruct (types_hashable r) eqn:Hkeys;
    [|rewrite (Hraise eq_refl) in Hst; discriminate].
  destruct (Hstats eq_refl) as (st' & Hst' & Htot & _ & Hby).
  rewrite Hst in Hst'. injection Hst' as <-.
  rewrite Hby in Hk.
  pose proof (type_count_nonneg t r). pose proof (type_count_le_length t r).
  case_decide; [done|]. injection Hk as <-. lia.
Qed.

Lemma get_stats_buckets_are_positive_witness :
  1 ≤ 2 ∧ reachable 2 full_log ∧
  get_stats full_log = Ok {| total := 2; by_type := {["mcp" := 1]} |} ∧
  ({["mcp" := 1]} : gmap string Z) !! "mcp" = Some 1 ∧
  1 ≤ 1 ≤ total {| total := 2; by_type := ({["mcp" := 1]} : gmap string Z) |}.
Proof.
  split; [lia|]. split; [exact full_log_reachable|].
  split; [by vm_compute|]. split; [by vm_compute|].
  apply (get_stats_buckets_are_positive 2 full_log
           {| total := 2; by_type := {["mcp" := 1]} |} "mcp" 1);
    [lia|exact full_log_reachable|by vm_compute|by vm_compute].
Defined.

(** X10. On every reachable state of a log of capacity [c >= 1], after
    [k] further [add] calls [head] has advanced by [k] around the ring and
    [count] has grown by [k], capped at the capacity; after [c] calls
    [head] is back where it was. *)
Theorem head_advances_around_the_ring {V : Type} `{Countable V}
    (c : Z) (self self' : @InteractionLog V)
    (adds : list (V * gmap string V)) :
  1 ≤ c →
  reachable c self →
  add_all adds self = Ok self' →
  _head self' = (_head self + Z.of_nat (length adds)) `mod` c ∧
  _count self' = Z.min (_count self + Z.of_nat (length adds)) c ∧
  (Z.of_nat (length adds) = c → _head self' = _head self).
Proof.
  intros Hc Hreach Hrun.
  destruct (reachable_represents c self Hc Hreach) as [Hcap [r Hrep]].
  destruct (add_all_cursors adds _ _ _ Hrep Hrun) as [Hhead Hcount].
  rewrite Hcap in Hhead, Hcount. split; [done|]. split; [done|].
  intros Hlen. rewrite Hhead, Hlen.
  replace (_head self + c) with (_head self + 1 * c) by lia.
  rewrite Z_mod_plus_full.
  destruct Hrep as (_ & _ & Hh & _). apply Z.mod_small. lia.
Qed.

Lemma head_advances_around_the_ring_witness :
  1 ≤ 2 ∧ reachable 2 full_log ∧
  add_all [("t3", ∅); ("t4", ∅)] full_log
    = Ok {| _buffer := [Some (stamped "t3" ∅); Some (stamped "t4" ∅)];
            _max_size := 2; _head := 0; _count := 2 |} ∧
  _head {| _buffer := [Some (stamped "t3" ∅);
                       Some (stamped "t4" (∅ : gmap string string))];
           _max_size := 2; _head := 0; _count := 2 |}
    = (_head full_log + Z.of_nat 2) `mod` 2 ∧
  _count {| _buffer := [Some (stamped "t3" ∅);
                        Some (stamped "t4" (∅ : gmap string string))];
            _max_size := 2; _head := 0; _count := 2 |}
    = Z.min (_count full_log + Z.of_nat 2) 2 ∧
  (Z.of_nat 2 = 2 →
   _head {| _buffer := [Some (stamped "t3" ∅);
                        Some (stamped "t4" (∅ : gmap string string))];
            _max_size := 2; _head := 0; _count := 2 |}
     = _head full_log).
Proof.
  assert (Hrun : add_all [("t3", ∅); ("t4", ∅)] full_log
            = Ok {| _buffer := [Some (stamped "t3" ∅); Some (stamped "t4" ∅)];
                    _max_size := 2; _head := 0; _count := 2 |})
    by (by vm_compute).
  split; [lia|]. split; [exact full_log_reachable|]. split; [exact Hrun|].
  apply (head_advances_around_the_ring 2 full_log _ [("t3", ∅); ("t4", ∅)]);
    [lia|exact full_log_reachable|exact Hrun].
Defined.

(** X11. On every reachable state of a log of capacity [c >= 1] that is
    not full, [add] loses nothing: [count] grows by one and [get_recent]
    returns the entries it returned before followed by the new one. *)
Theorem add_below_capacity_keeps_all {V : Type} `{Countable V}
    (c : Z) (self : @InteractionLog V) (now : V) (kwargs : gmap string V) :
  1 ≤ c →
  reachable c self →
  _count self < _max_size self →
  ∃ retained self',
    get_recent (_count self) self = Ok retained ∧
    add now kwargs self = Ok self' ∧
    _count self' = _count self + 1 ∧
    get_recent (_count self') self' = Ok (retained ++ [stamped now kwargs]) ∧
    ∀ n : Z,
      get_recent n self'
      = Ok (lastn (Z.to_nat n) (retained ++ [stamped now kwargs])).
Proof.
  intros Hc Hreach Hroom.
  destruct (reachable_represents c self Hc Hreach) as [Hcap [r Hrep]].
  pose proof (represents_count _ _ Hrep) as Hcount.
  pose proof (add_ok _ _ now kwargs Hrep) as Hadd.
  pose proof (add_represents _ _ _ _ _ Hrep Hadd) as Hrep'.
  rewrite lastn_all in Hrep' by (rewrite length_app; simpl; lia).
  pose proof (recent_of_retained _ _ Hrep) as Hrecent.
  pose proof (recent_of_retained _ _ Hrep') as Hrecent'.
  eexists r, _. split; [by rewrite Hrecent, lastn_all by lia|].
  split; [exact Hadd|]. simpl.
  split; [by rewrite decide_True by done|].
  split; [|done].
  rewrite Hrecent'. f_equal. apply lastn_all.
  rewrite length_app, decide_True by done. simpl. lia.
Qed.

Lemma add_below_capacity_keeps_all_witness :
  1 ≤ 3 ∧ reachable 3 young_log ∧ _count young_log < _max_size young_log ∧
  ∃ retained self',
    get_recent (_count young_log) young_log = Ok retained ∧
    add "t2" {["tool" := "getPrice"]} young_log = Ok self' ∧
    _count self' = _count young_log + 1 ∧
    get_recent (_count self') self'
      = Ok (retained ++ [stamped "t2" {["tool" := "getPrice"]}]) ∧
    ∀ n : Z,
      get_recent n self'
      = Ok (lastn (Z.to_nat n)
              (retained ++ [stamped "t2" {["tool" := "getPrice"]}])).
Proof.
  split; [lia|]. split; [exact young_log_reachable|]. split; [by vm_compute|].
  apply (add_below_capacity_keeps_all 3 young_log "t2"
           {["tool" := "getPrice"]});
    [lia|exact young_log_reachable|by vm_compute].
Defined.

(** X12. On every reachable state of a log of capacity [c >= 1] that is
    not full and on which [get_stats()] returns a report, [add] changes
    what [get_stats()] does by one step.  When the [type] of the new entry
    can be a dictionary key, the total grows by one, the bucket of that
    type grows by one (from 0 when it is new) and the other buckets are
    unchanged; an entry without a [type] makes the total grow by one and
    changes no bucket; when the [type] cannot be a key, [get_stats()]
    raises [TypeError] from then on. *)
Theorem add_below_capacity_updates_stats
    {V : Type} `{Countable V} `{Hashable V}
    (c : Z) (self : @InteractionLog V) (st : stats)
    (now : V) (kwargs : gmap string V) :
  1 ≤ c →
  reachable c self →
  _count self < _max_size self →
  get_stats self = Ok st →
  ∃ self',
    add now kwargs self = Ok self' ∧
    get_stats self'
    = match kwargs !! "type" with
      | Some t =>
          if hashable t
          then Ok {| total := total st + 1;
                     by_type :=
                       <[t := default 0 (by_type st !! t) + 1]> (by_type st) |}
          else Raise TypeError
      | None => Ok {| total := total st + 1; by_type := by_type st |}
      end.
Proof.
  intros Hc Hreach Hroom Hst.
  destruct (reachable_represents c self Hc Hreach) as [Hcap [r Hrep]].
  pose proof (represents_count _ _ Hrep) as Hcount.
  pose proof (add_ok _ _ now kwargs Hrep) as Hadd.
  pose proof (add_represents _ _ _ _ _ Hrep Hadd) as Hrep'.
  rewrite lastn_all in Hrep' by (rewrite length_app; simpl; lia).
  rewrite (get_stats_spec _ _ Hrep) in Hst.
  destruct (types_hashable r) eqn:Hkeys; [|discriminate].
  injection Hst as <-.
  eexists. split; [exact Hadd|].
  rewrite (get_stats_spec _ _ Hrep'). simpl.
  rewrite decide_True by done. rewrite foldl_tally_snoc.
  unfold types_hashable in *. rewrite forallb_app, Hkeys. simpl.
  unfold tally at 1. rewrite stamped_other by done.
  destruct (kwargs !! "type") as [t|]; [|done].
  by destruct (hashable t).
Qed.

Lemma add_below_capacity_updates_stats_witness :
  1 ≤ 3 ∧ reachable 3 young_log ∧ _count young_log < _max_size young_log ∧
  get_stats young_log = Ok {| total := 1; by_type := {["mcp" := 1]} |} ∧
  ∃ self',
    add "t2" {["type" := "mcp"]} young_log = Ok self' ∧
    get_stats self'
    = match ({["type" := "mcp"]} : gmap string string) !! "type" with
      | Some t =>
          if hashable t
          then Ok {| total :=
                       total {| total := 1; by_type := {["mcp" := 1]} |} + 1;
                     by_type :=
                       <[t := default 0
                                (by_type {| total := 1;
                                            by_type := {["mcp" := 1]} |} !! t)
                              + 1]>
                         (by_type {| total := 1; by_type := {["mcp" := 1]} |}) |}
          else Raise TypeError
      | None =>
          Ok {| total := total {| total := 1; by_type := {["mcp" := 1]} |} + 1;
                by_type := by_type {| total := 1; by_type := {["mcp" := 1]} |} |}
      end.
Proof.
  split; [lia|]. split; [exact young_log_reachable|]. split; [by vm_compute|].
  split; [by vm_compute|].
  apply (add_below_capacity_updates_stats 3 young_log
           {| total := 1; by_type := {["mcp" := 1]} |} "t2"
           {["type" := "mcp"]});
    [lia|exact young_log_reachable|by vm_compute|by vm_compute].
Defined.

(** X13. Whatever the order in which the calls of a list reach a new log
    of capacity [c >= 1], as long as they are [c] at most the log retains
    the entry of each call once: [get_recent(n)] with [n] at least their
    number returns a permutation of the entries the calls build. *)
Theorem adds_in_any_order_lose_nothing {V : Type} `{Countable V}
    (c : Z) (adds served : list (V * gmap string V)) (n : Z) :
  1 ≤ c →
  served ≡ₚ adds →
  Z.of_nat (length adds) ≤ c →
  Z.of_nat (length adds) ≤ n →
  ∃ self recent,
    (self0 ← init c; add_all served self0) = Ok self ∧
    _count self = Z.of_nat (length adds) ∧
    get_recent n self = Ok recent ∧
    recent ≡ₚ entries adds.
Proof.
  intros Hc Hperm Hfit Hn.
  destruct (fresh_adds_represents c served Hc) as (self & Hrun & _ & Hrep).
  pose proof (Permutation_length Hperm) as Hlen.
  rewrite lastn_all in Hrep
    by (unfold entries; rewrite length_map; lia).
  pose proof (represents_count _ _ Hrep) as Hcount.
  unfold entries in Hcount. rewrite length_map in Hcount.
  pose proof (recent_of_retained _ _ Hrep) as Hrecent.
  exists self, (entries served). split; [done|]. split; [lia|].
  split.
  - rewrite Hrecent. f_equal. apply lastn_all.
    unfold entries. rewrite length_map. lia.
  - unfold entries. by apply fmap_Permutation.
Qed.

Lemma adds_in_any_order_lose_nothing_witness :
  1 ≤ 3 ∧
  two_calls_swapped ≡ₚ two_calls ∧
  Z.of_nat (length two_calls) ≤ 3 ∧
  Z.of_nat (length two_calls) ≤ 5 ∧
  ∃ self recent,
    (self0 ← init 3; add_all two_calls_swapped self0) = Ok self ∧
    _count self = Z.of_nat (length two_calls) ∧
    get_recent 5 self = Ok recent ∧
    recent ≡ₚ entries two_calls.
Proof.
  assert (Hperm : two_calls_swapped ≡ₚ two_calls) by apply Permutation_swap.
  split; [lia|]. split; [exact Hperm|].
  split; [simpl; lia|]. split; [simpl; lia|].
  apply (adds_in_any_order_lose_nothing 3 two_calls two_calls_swapped 5);
    [lia|exact Hperm|simpl; lia|simpl; lia].
Defined.

(** * The payment gate *)

Lemma DEFAULT_USDC_avalanche :
  DEFAULT_USDC !!! "avalanche" = "0xB97EF9Ef8734C71904D8002F8b6Bc66Dd9c48a6E".
Proof. by vm_compute. Qed.

Lemma DEFAULT_USDC_nonempty (chain address : string) :
  DEFAULT_USDC !! chain = Some address → address ≠ "".
Proof.
  unfold DEFAULT_USDC.
  rewrite !lookup_insert_Some, lookup_singleton_Some.
  intros Hlook.
  repeat match type of Hlook with
         | _ ∨ _ => destruct Hlook as [[_ <-]|[_ Hlook]]; [done|]
         end.
  by destruct Hlook as [_ <-].
Qed.

Lemma str_or_nonempty (a : option string) (b : string) :
  b ≠ "" → str_or a b ≠ "".
Proof. intros Hb. unfold str_or. destruct a as [s|]; [by case_decide|done]. Qed.

Lemma str_or_falsy (a : option string) (b : string) :
  str_not a = true → str_or a b = b.
Proof.
  unfold str_not, str_or. destruct a as [s|]; [|done].
  intros Hs%bool_decide_eq_true. by rewrite decide_True.
Qed.

Lemma str_or_none_if_falsy (a : option string) (b : string) :
  str_or (if str_not a then None else a) b = str_or a b.
Proof.
  destruct a as [s|]; simpl; [|done].
  case_bool_decide as Hs; [|done]. subst s. done.
Qed.

Lemma str_or_truthy (s b : string) : s ≠ "" → str_or (Some s) b = s.
Proof. intros Hs. unfold str_or. by rewrite decide_False. Qed.

(** X14. Whatever the arguments and the environment, the terms
    [require_x402_payment] resolves quote a non-empty asset and a
    non-empty facilitator.  Without an [asset] argument (or with an empty
    one) the asset is an address of the table [DEFAULT_USDC]: the one of
    the resolved network when the table lists that network, and the
    Avalanche one for every other network name, which is still quoted as
    the network. *)
Theorem resolved_asset_is_never_empty
    (environ : gmap string string) (price : Z)
    (asset recipient network facilitator_url : option string)
    (description : string) :
  let terms := require_x402_payment environ price asset recipient network
                 facilitator_url description in
  usdc terms ≠ "" ∧
  fac_url terms ≠ "" ∧
  (str_not asset = true →
     (∀ address, DEFAULT_USDC !! net terms = Some address →
        usdc terms = address) ∧
     (DEFAULT_USDC !! net terms = None →
        usdc terms = "0xB97EF9Ef8734C71904D8002F8b6Bc66Dd9c48a6E")).
Proof.
  intros terms. subst terms. simpl.
  set (n := str_or network (str_get environ "X402_NETWORK" "avalanche")).
  split; [|split].
  - apply str_or_nonempty. unfold str_get.
    destruct (DEFAULT_USDC !! n) as [address|] eqn:Hn; simpl.
    + by eapply DEFAULT_USDC_nonempty.
    + by rewrite DEFAULT_USDC_avalanche.
  - by apply str_or_nonempty.
  - intros Hasset. rewrite str_or_falsy by done. unfold str_get. split.
    + by intros address ->.
    + intros ->. simpl. apply DEFAULT_USDC_avalanche.
Qed.

(** X15. The arguments of [require_x402_payment] win over the
    environment, and the environment over the built-in values; an empty
    string counts as no argument.  The network is the [network] argument
    when it is not empty, else the variable [X402_NETWORK] when it is set
    (to the empty string too), else [avalanche]; the recipient is the
    [recipient] argument when it is not empty, else the variable
    [X402_RECIPIENT], and it is empty exactly when neither gives a
    non-empty string. *)
Theorem resolved_terms_precedence
    (environ : gmap string string) (price : Z)
    (asset recipient network facilitator_url : option string)
    (description : string) :
  let terms := require_x402_payment environ price asset recipient network
                 facilitator_url description in
  (∀ n, network = Some n → n ≠ "" → net terms = n) ∧
  (str_not network = true →
     net terms = default "avalanche" (environ !! "X402_NETWORK")) ∧
  (∀ r, recipient = Some r → r ≠ "" → wallet terms = r) ∧
  (str_not recipient = true →
     wallet terms = default "" (environ !! "X402_RECIPIENT")) ∧
  (wallet terms = "" ↔
     str_not recipient = true ∧
     (environ !! "X402_RECIPIENT" = None ∨
      environ !! "X402_RECIPIENT" = Some "")) ∧
  terms
  = require_x402_payment environ price
      (if str_not asset then None else asset)
      (if str_not recipient then None else recipient)
      (if str_not network then None else network)
      (if str_not facilitator_url then None else facilitator_url)
      description.
Proof.
  intros terms. subst terms. simpl.
  split; [by intros n -> Hn; apply str_or_truthy|].
  split; [by intros Hn; apply str_or_falsy|].
  split; [by intros r -> Hr; apply str_or_truthy|].
  split; [by intros Hr; apply str_or_falsy|].
  split.
  - assert (Henv : default "" (environ !! "X402_RECIPIENT") = "" ↔
                    environ !! "X402_RECIPIENT" = None ∨
                    environ !! "X402_RECIPIENT" = Some "").
    { destruct (environ !! "X402_RECIPIENT") as [e|]; simpl.
      - split; [intros ->; by right|]. by intros [?|[= ->]].
      - split; [by left|done]. }
    destruct (str_not recipient) eqn:Hnot.
    + rewrite str_or_falsy by done. unfold str_get. rewrite Henv.
      split; [done|by intros [_ ?]].
    + destruct recipient as [r|]; [|done]. simpl in Hnot.
      apply bool_decide_eq_false in Hnot.
      rewrite str_or_truthy by done. split; [done|by intros [? _]].
  - unfold require_x402_payment. by rewrite !str_or_none_if_falsy.
Qed.


(** * The handlers *)

Lemma py_get_dict (d : gmap string json) (key : string) (dflt : json) :
  py_get (JDict d) key dflt = Returns (default dflt (d !! key)).
Proof. done. Qed.

Lemma py_get_not_dict (x : json) (key : string) (dflt : json) :
  (∀ d, x ≠ JDict d) → py_get x key dflt = Fails AttributeError.
Proof. intros Hx. destruct x; try done. by destruct (Hx d). Qed.

Lemma py_bool_str (s : string) : s ≠ "" → py_bool (JStr s) = true.
Proof. intros Hs. simpl. by apply bool_decide_eq_true. Qed.

Lemma truthy_str (x : json) :
  py_bool x = true → is_str x = true → ∃ s, x = JStr s ∧ s ≠ "".
Proof.
  intros Hb Hs. destruct x; try done. simpl in Hb.
  apply bool_decide_eq_true in Hb. by eexists.
Qed.

(** What [a2a_ask] does with the value the [or] chain selects. *)
Lemma a2a_ask_selected
    (agent_name : string) (py_repr : json → string)
    (d : gmap string json) (now : string) :
  let q := default JNull (d !! "question") in
  let m := default JNull (d !! "message") in
  let i := default JNull (d !! "input") in
  let question := if py_bool q then q else if py_bool m then m else i in
  a2a_ask agent_name py_repr (JDict d) now =
    if negb (py_bool question) || negb (is_str question)
    then Returns missing_question
    else Returns
           (Body (JDict {[ "agent" := JStr agent_name;
                           "question" := question;
                           "answer" :=
                             JStr ("This is a starter template. Implement your answer logic for: "
                                   +:+ py_str py_repr question);
                           "timestamp" := JStr now ]})).
Proof.
  intros q m i question. unfold a2a_ask, py_get.
  cbn [mbind attempt_bind]. fold q m i. subst question.
  destruct (py_bool q) eqn:Hq; cbn [mbind attempt_bind]; [by rewrite Hq|].
  destruct (py_bool m) eqn:Hm; cbn [mbind attempt_bind]; [by rewrite Hm|].
  done.
Qed.

(** X17. [a2a_ask] answers the first of the fields [question],
    [message] and [input] that holds a true value, when that value is a
    string: a non-empty string in [question] is answered whatever the
    other fields hold, one in [message] when [question] is absent or
    false (null, false, 0, empty), one in [input] when both are. *)
Theorem a2a_ask_answers_first_field
    (agent_name : string) (py_repr : json → string)
    (d : gmap string json) (now : string) (key s : string) :
  s ≠ "" →
  d !! key = Some (JStr s) →
  key = "question" ∨
  (key = "message" ∧ py_bool (default JNull (d !! "question")) = false) ∨
  (key = "input" ∧ py_bool (default JNull (d !! "question")) = false ∧
   py_bool (default JNull (d !! "message")) = false) →
  a2a_ask agent_name py_repr (JDict d) now = Returns (answer_to agent_name s now).
Proof.
  intros Hs Hkey Hfirst. rewrite a2a_ask_selected. cbv zeta.
  destruct Hfirst as [->|[[-> Hq]|(-> & Hq & Hm)]].
  - rewrite Hkey. simpl default. by rewrite !py_bool_str by done.
  - rewrite Hq, Hkey. simpl default. by rewrite !py_bool_str by done.
  - rewrite Hq, Hm, Hkey. simpl default. by rewrite !py_bool_str by done.
Qed.

(** X18. [a2a_ask] refuses with status 400 when the first true value among
    [question], [message] and [input] is not a string, and when none of
    the three is true.  A true [question] that is not a string (a number,
    a list, an object) is refused even when [message] holds a string. *)
Theorem a2a_ask_refuses_non_strings
    (agent_name : string) (py_repr : json → string)
    (d : gmap string json) (now : string) :
  let q := default JNull (d !! "question") in
  let m := default JNull (d !! "message") in
  let i := default JNull (d !! "input") in
  (py_bool q = true ∧ is_str q = false) ∨
  (py_bool q = false ∧ py_bool m = true ∧ is_str m = false) ∨
  (py_bool q = false ∧ py_bool m = false ∧
   (py_bool i = false ∨ is_str i = false)) →
  a2a_ask agent_name py_repr (JDict d) now = Returns missing_question.
Proof.
  intros q m i Hcase. rewrite a2a_ask_selected. cbv zeta. fold q m i.
  destruct Hcase as [[Hq Hs]|[(Hq & Hm & Hs)|(Hq & Hm & Hi)]].
  - rewrite Hq. cbv iota. by rewrite Hq, Hs.
  - rewrite Hq, Hm. cbv iota. by rewrite Hm, Hs.
  - rewrite Hq, Hm. cbv iota.
    destruct Hi as [Hi|Hi]; rewrite Hi; [done|]. by rewrite orb_true_r.
Qed.

(** X19. Whatever the body, [a2a_ask] hands back one of two things: the
    refusal with status 400, or an answer to a non-empty string that the
    body holds in [question], [message] or [input], echoed as the
    [question] of the answer. *)
Theorem a2a_ask_answers_only_strings_of_the_body
    (agent_name : string) (py_repr : json → string)
    (body : json) (now : string) (r : reply) :
  a2a_ask agent_name py_repr body now = Returns r →
  r = missing_question ∨
  ∃ (d : gmap string json) (key s : string),
    body = JDict d ∧
    key ∈ ["question"; "message"; "input"] ∧
    d !! key = Some (JStr s) ∧
    s ≠ "" ∧
    r = answer_to agent_name s now.
Proof.
  intros Hr. destruct body as [| | | | | |d]; try done.
  rewrite a2a_ask_selected in Hr. cbv zeta in Hr.
  set (q := default JNull (d !! "question")) in *.
  set (m := default JNull (d !! "message")) in *.
  set (i := default JNull (d !! "input")) in *.
  assert (Hfield : ∀ key x s,
            x = default JNull (d !! key) → x = JStr s → d !! key = Some (JStr s)).
  { intros key x s -> Hx. by destruct (d !! key) as [y|]; simplify_eq/=. }
  set (question := if py_bool q then q else if py_bool m then m else i) in *.
  destruct (py_bool question) eqn:Hb; simpl in Hr; [|left; congruence].
  destruct (is_str question) eqn:Hstr; simpl in Hr; [|left; congruence].
  destruct (truthy_str question Hb Hstr) as (s & Hqs & Hs).
  rewrite Hqs in Hr. simpl in Hr. injection Hr as <-.
  right. exists d.
  subst question. destruct (py_bool q).
  - exists "question", s. repeat split; [set_solver|by eapply Hfield|done].
  - destruct (py_bool m).
    + exists "message", s. repeat split; [set_solver|by eapply Hfield|done].
    + exists "input", s. repeat split; [set_solver|by eapply Hfield|done].
Qed.

(** X20. A body that is valid JSON but not an object (a list, a string,
    a number, a boolean, null) makes both handlers raise [AttributeError]:
    neither answers it with an error response of its own. *)
Theorem handlers_raise_on_non_object_body
    (agent_name : string)
    (registration_description registration_capabilities : json)
    (service_names : list json) (py_repr json_dumps : json → string)
    (body : json) (now : string) :
  (∀ d, body ≠ JDict d) →
  a2a_ask agent_name py_repr body now = Fails AttributeError ∧
  mcp_handler agent_name registration_description registration_capabilities
    service_names py_repr json_dumps (Some body) now
  = Fails AttributeError.
Proof.
  intros Hbody. unfold a2a_ask, mcp_handler.
  by rewrite !py_get_not_dict by done.
Qed.

(** What [mcp_handler] does with an object, by the method it names. *)
Lemma mcp_handler_dict
    (agent_name : string)
    (registration_description registration_capabilities : json)
    (service_names : list json) (py_repr json_dumps : json → string)
    (d : gmap string json) (now : string) :
  let method := default JNull (d !! "method") in
  let req_id := default JNull (d !! "id") in
  let params := default (JDict ∅) (d !! "params") in
  mcp_handler agent_name registration_description registration_capabilities
    service_names py_repr json_dumps (Some (JDict d)) now
  = if eq_str method "initialize" then
      rpc_ok req_id
        (JDict {[ "protocolVersion" := JStr "2025-11-25";
                  "capabilities" := JDict {[ "tools" := JDict ∅ ]};
                  "serverInfo" :=
                    JDict {[ "name" := JStr (agent_name +:+ " MCP");
                             "version" := JStr VERSION ]} ]})
    else if eq_str method "tools/list" then
      rpc_ok req_id (JDict {[ "tools" := MCP_TOOLS ]})
    else if eq_str method "tools/call" then
      tool_name ← py_get params "name" JNull;
      args ← py_get params "arguments" (JDict ∅);
      if eq_str tool_name "get_agent_info" then
        rpc_ok req_id
          (JDict {[ "content" :=
             JList [ JDict {[ "type" := JStr "text";
                              "text" := JStr (json_dumps
                                (JDict {[ "name" := JStr agent_name;
                                          "description" := registration_description;
                                          "version" := JStr VERSION;
                                          "capabilities" := registration_capabilities;
                                          "services" := JList service_names ]})) ]} ] ]})
      else if eq_str tool_name "ping" then
        message ← py_get args "message" (JStr ("Hello from " +:+ agent_name));
        rpc_ok req_id
          (JDict {[ "content" :=
             JList [ JDict {[ "type" := JStr "text";
                              "text" := JStr (json_dumps
                                (JDict {[ "pong" := JBool true;
                                          "message" := message;
                                          "timestamp" := JStr now ]})) ]} ] ]})
      else
        rpc_err req_id (-32601)
          ("Tool not found: " +:+ py_str py_repr tool_name)
    else
      rpc_err req_id (-32601)
        ("Method not supported: " +:+ py_str py_repr method).
Proof.
  intros method req_id params. unfold mcp_handler.
  rewrite !py_get_dict. cbn [mbind attempt_bind]. fold method req_id params.
  destruct (eq_str method "initialize"); [done|].
  destruct (eq_str method "tools/list"); [done|].
  destruct (eq_str method "tools/call"); [|done].
  destruct (py_get params "name" JNull) as [tool_name|e];
    cbn [mbind attempt_bind]; [|done].
  destruct (py_get params "arguments" (JDict ∅)) as [args|e];
    cbn [mbind attempt_bind]; [|done].
  destruct (eq_str tool_name "get_agent_info"); [done|].
  destruct (eq_str tool_name "ping"); [|done].
  by destruct (py_get args "message" _).
Qed.

(** ** Rendering *)

Lemma json_finite_dict (d : gmap string json) :
  json_finite (JDict d) = true ↔
  map_Forall (fun _ y => json_finite y = true) d.
Proof.
  simpl. induction d as [|k y d Hk Hfirst IH] using map_first_key_ind.
  - rewrite map_fold_empty. split; [intros _; apply map_Forall_empty|done].
  - rewrite map_fold_insert_first_key by done.
    by rewrite andb_true_iff, IH, map_Forall_insert by done.
Qed.

Lemma jsonrpc_result_finite (req_id result : json) :
  json_finite result = true →
  json_finite (jsonrpc_result req_id result) = json_finite req_id.
Proof.
  intros Hres. apply eq_true_iff_eq. unfold jsonrpc_result.
  rewrite json_finite_dict, !map_Forall_insert, map_Forall_singleton by done.
  simpl json_finite at 1. tauto.
Qed.

Lemma jsonrpc_error_finite (req_id : json) (code : Z) (message : string) :
  json_finite (jsonrpc_error req_id code message) = json_finite req_id.
Proof.
  apply eq_true_iff_eq. unfold jsonrpc_error.
  rewrite json_finite_dict, !map_Forall_insert, map_Forall_singleton by done.
  rewrite json_finite_dict, map_Forall_insert, map_Forall_singleton by done.
  simpl json_finite. tauto.
Qed.

(** [rpc_ok] with a result that renders, and [rpc_err], return the
    response unless the [id] they echo does not render. *)
Lemma rpc_ok_outcome (req_id result : json) :
  json_finite result = true →
  rpc_ok req_id result =
    if json_finite req_id
    then Returns (Response {| content := jsonrpc_result req_id result;
                              status_code := 200 |})
    else Fails ValueError.
Proof.
  intros Hres. unfold rpc_ok, new_JSONResponse.
  fold (jsonrpc_result req_id result).
  rewrite jsonrpc_result_finite by done. by destruct (json_finite req_id).
Qed.

Lemma rpc_err_outcome (req_id : json) (code : Z) (message : string) :
  rpc_err req_id code message =
    if json_finite req_id
    then Returns (Response {| content := jsonrpc_error req_id code message;
                              status_code := 200 |})
    else Fails ValueError.
Proof.
  unfold rpc_err, new_JSONResponse.
  fold (jsonrpc_error req_id code message).
  rewrite jsonrpc_error_finite. by destruct (json_finite req_id).
Qed.

Lemma rpc_ok_envelope (req_id result : json) (r : reply) :
  rpc_ok req_id result = Returns r →
  ∃ c : gmap string json,
    r = Response {| content := JDict c; status_code := 200 |} ∧
    c !! "jsonrpc" = Some (JStr "2.0") ∧
    c !! "id" = Some req_id ∧
    c !! "result" = Some result ∧
    c !! "error" = None.
Proof.
  unfold rpc_ok, new_JSONResponse.
  destruct (json_finite _); cbn [mbind attempt_bind]; [|done].
  intros [= <-]. eexists. split; [reflexivity|]. by vm_compute.
Qed.

Lemma rpc_err_envelope (req_id : json) (code : Z) (message : string)
    (r : reply) :
  rpc_err req_id code message = Returns r →
  ∃ c : gmap string json,
    r = Response {| content := JDict c; status_code := 200 |} ∧
    c !! "jsonrpc" = Some (JStr "2.0") ∧
    c !! "id" = Some req_id ∧
    c !! "result" = None ∧
    c !! "error"
      = Some (JDict {[ "code" := JInt code; "message" := JStr message ]}).
Proof.
  unfold rpc_err, new_JSONResponse.
  destruct (json_finite _); cbn [mbind attempt_bind]; [|done].
  intros [= <-]. eexists. split; [reflexivity|]. by vm_compute.
Qed.

(** X21. Every reply of [mcp_handler] is a response of status 200 that
    holds a JSON-RPC object: [jsonrpc] is "2.0", [id] is the [id] of the
    request (null when the request has none or cannot be parsed), and the
    object has either a [result] or an [error] with a [code] and a
    [message], never both. *)
Theorem mcp_reply_is_a_jsonrpc_envelope
    (agent_name : string)
    (registration_description registration_capabilities : json)
    (service_names : list json) (py_repr json_dumps : json → string)
    (parsed : option json) (now : string) (r : reply) :
  mcp_handler agent_name registration_description registration_capabilities
    service_names py_repr json_dumps parsed now = Returns r →
  ∃ c : gmap string json,
    r = Response {| content := JDict c; status_code := 200 |} ∧
    c !! "jsonrpc" = Some (JStr "2.0") ∧
    c !! "id"
      = Some (match parsed with
              | Some (JDict d) => default JNull (d !! "id")
              | _ => JNull
              end) ∧
    ((is_Some (c !! "result") ∧ c !! "error" = None) ∨
     (c !! "result" = None ∧
      ∃ (code : Z) (message : string),
        c !! "error"
          = Some (JDict {[ "code" := JInt code; "message" := JStr message ]}))).
Proof.
  intros Hr.
  assert (Hok : ∀ req_id result,
            rpc_ok req_id result = Returns r →
            ∃ c : gmap string json,
              r = Response {| content := JDict c; status_code := 200 |} ∧
              c !! "jsonrpc" = Some (JStr "2.0") ∧ c !! "id" = Some req_id ∧
              ((is_Some (c !! "result") ∧ c !! "error" = None) ∨
               (c !! "result" = None ∧
                ∃ (code : Z) (message : string),
                  c !! "error"
                    = Some (JDict {[ "code" := JInt code;
                                     "message" := JStr message ]})))).
  { intros req_id result Hrpc.
    destruct (rpc_ok_envelope req_id result r Hrpc)
      as (c & Hc & Hrpc2 & Hid & Hres & Hnone).
    exists c. split; [exact Hc|]. split; [exact Hrpc2|]. split; [exact Hid|].
    left. split; [|exact Hnone]. rewrite Hres. by eexists. }
  assert (Herr : ∀ req_id code message,
            rpc_err req_id code message = Returns r →
            ∃ c : gmap string json,
              r = Response {| content := JDict c; status_code := 200 |} ∧
              c !! "jsonrpc" = Some (JStr "2.0") ∧ c !! "id" = Some req_id ∧
              ((is_Some (c !! "result") ∧ c !! "error" = None) ∨
               (c !! "result" = None ∧
                ∃ (code : Z) (message : string),
                  c !! "error"
                    = Some (JDict {[ "code" := JInt code;
                                     "message" := JStr message ]})))).
  { intros req_id code message Hrpc.
    destruct (rpc_err_envelope req_id code message r Hrpc)
      as (c & Hc & Hrpc2 & Hid & Hnone & Herror).
    exists c. split; [exact Hc|]. split; [exact Hrpc2|]. split; [exact Hid|].
    right. split; [exact Hnone|]. exists code, message. exact Herror. }
  destruct parsed as [body|].
  - destruct body as [| | | | | |d]; try done.
    rewrite mcp_handler_dict in Hr. cbv zeta in Hr.
    destruct (eq_str _ "initialize"); [by eapply Hok|].
    destruct (eq_str _ "tools/list"); [by eapply Hok|].
    destruct (eq_str _ "tools/call"); [|by eapply Herr].
    destruct (py_get _ "name" JNull) as [tool_name|e];
      cbn [mbind attempt_bind] in Hr; [|done].
    destruct (py_get _ "arguments" (JDict ∅)) as [args|e];
      cbn [mbind attempt_bind] in Hr; [|done].
    destruct (eq_str tool_name "get_agent_info"); [by eapply Hok|].
    destruct (eq_str tool_name "ping"); [|by eapply Herr].
    destruct (py_get args "message" _) as [message|e];
      cbn [mbind attempt_bind] in Hr; [|done].
    by eapply Hok.
  - injection Hr as <-. eexists. split; [reflexivity|].
    split; [by vm_compute|]. split; [by vm_compute|].
    right. split; [by vm_compute|]. by exists (-32700), "Parse error".
Qed.

Lemma eq_str_true (x : json) (s : string) : eq_str x s = true → x = JStr s.
Proof.
  destruct x; try done. simpl. by intros ->%bool_decide_eq_true.
Qed.




(** ** The handlers at work *)

Lemma a2a_ask_answers_first_field_witness :
  "hi" ≠ "" ∧
  ask_by_message !! "message" = Some (JStr "hi") ∧
  ("message" = "question" ∨
   ("message" = "message" ∧
    py_bool (default JNull (ask_by_message !! "question")) = false) ∨
   ("message" = "input" ∧
    py_bool (default JNull (ask_by_message !! "question")) = false ∧
    py_bool (default JNull (ask_by_message !! "message")) = false)) ∧
  a2a_ask "Agent" demo_repr (JDict ask_by_message) "t"
  = Returns (answer_to "Agent" "hi" "t").
Proof.
  assert (Hfirst :
    "message" = "question" ∨
    ("message" = "message" ∧
     py_bool (default JNull (ask_by_message !! "question")) = false) ∨
    ("message" = "input" ∧
     py_bool (default JNull (ask_by_message !! "question")) = false ∧
     py_bool (default JNull (ask_by_message !! "message")) = false))
    by (right; left; split; reflexivity).
  split; [done|]. split; [reflexivity|]. split; [exact Hfirst|].
  apply (a2a_ask_answers_first_field "Agent" demo_repr ask_by_message "t"
           "message" "hi"); [done|reflexivity|exact Hfirst].
Defined.

Lemma a2a_ask_refuses_non_strings_witness :
  ((py_bool (default JNull (ask_by_number !! "question")) = true ∧
    is_str (default JNull (ask_by_number !! "question")) = false) ∨
   (py_bool (default JNull (ask_by_number !! "question")) = false ∧
    py_bool (default JNull (ask_by_number !! "message")) = true ∧
    is_str (default JNull (ask_by_number !! "message")) = false) ∨
   (py_bool (default JNull (ask_by_number !! "question")) = false ∧
    py_bool (default JNull (ask_by_number !! "message")) = false ∧
    (py_bool (default JNull (ask_by_number !! "input")) = false ∨
     is_str (default JNull (ask_by_number !! "input")) = false))) ∧
  a2a_ask "Agent" demo_repr (JDict ask_by_number) "t"
  = Returns missing_question.
Proof.
  assert (Hcase :
    (py_bool (default JNull (ask_by_number !! "question")) = true ∧
     is_str (default JNull (ask_by_number !! "question")) = false) ∨
    (py_bool (default JNull (ask_by_number !! "question")) = false ∧
     py_bool (default JNull (ask_by_number !! "message")) = true ∧
     is_str (default JNull (ask_by_number !! "message")) = false) ∨
    (py_bool (default JNull (ask_by_number !! "question")) = false ∧
     py_bool (default JNull (ask_by_number !! "message")) = false ∧
     (py_bool (default JNull (ask_by_number !! "input")) = false ∨
      is_str (default JNull (ask_by_number !! "input")) = false)))
    by (left; split; reflexivity).
  split; [exact Hcase|].
  apply (a2a_ask_refuses_non_strings "Agent" demo_repr ask_by_number "t");
    exact Hcase.
Defined.

Lemma a2a_ask_answers_only_strings_of_the_body_witness :
  a2a_ask "Agent" demo_repr (JDict ask_by_message) "t"
    = Returns (answer_to "Agent" "hi" "t") ∧
  (answer_to "Agent" "hi" "t" = missing_question ∨
   ∃ (d : gmap string json) (key s : string),
     JDict ask_by_message = JDict d ∧
     key ∈ ["question"; "message"; "input"] ∧
     d !! key = Some (JStr s) ∧
     s ≠ "" ∧
     answer_to "Agent" "hi" "t" = answer_to "Agent" s "t").
Proof.
  split; [reflexivity|].
  apply (a2a_ask_answers_only_strings_of_the_body "Agent" demo_repr
           (JDict ask_by_message) "t" (answer_to "Agent" "hi" "t")).
  reflexivity.
Defined.

Lemma handlers_raise_on_non_object_body_witness :
  (∀ d, JList [JInt 1] ≠ JDict d) ∧
  a2a_ask "Agent" demo_repr (JList [JInt 1]) "t" = Fails AttributeError ∧
  mcp_handler "Agent" (JStr "") (JList []) [] demo_repr demo_dumps
    (Some (JList [JInt 1])) "t"
  = Fails AttributeError.
Proof.
  split; [done|].
  apply (handlers_raise_on_non_object_body "Agent" (JStr "") (JList []) []
           demo_repr demo_dumps (JList [JInt 1]) "t").
  done.
Defined.

Lemma mcp_reply_is_a_jsonrpc_envelope_witness :
  mcp_handler "Agent" (JStr "") (JList []) [] demo_repr demo_dumps
    (Some (JDict ping_call)) "t"
  = Returns (Response
      {| content :=
           jsonrpc_result (JInt 7)
             (JDict {[ "content" :=
                JList [ JDict {[ "type" := JStr "text";
                                 "text" := JStr "<json>" ]} ] ]});
         status_code := 200 |}) ∧
  ∃ c : gmap string json,
    Response
      {| content :=
           jsonrpc_result (JInt 7)
             (JDict {[ "content" :=
                JList [ JDict {[ "type" := JStr "text";
                                 "text" := JStr "<json>" ]} ] ]});
         status_code := 200 |}
    = Response {| content := JDict c; status_code := 200 |} ∧
    c !! "jsonrpc" = Some (JStr "2.0") ∧
    c !! "id" = Some (default JNull (ping_call !! "id")) ∧
    ((is_Some (c !! "result") ∧ c !! "error" = None) ∨
     (c !! "result" = None ∧
      ∃ (code : Z) (message : string),
        c !! "error"
          = Some (JDict {[ "code" := JInt code; "message" := JStr message ]}))).
Proof.
  split; [reflexivity|].
  apply (mcp_reply_is_a_jsonrpc_envelope "Agent" (JStr "") (JList []) []
           demo_repr demo_dumps (Some (JDict ping_call)) "t").
  reflexivity.
Defined.


(** The response to a request whose [id] is NaN cannot be rendered. *)
Example mcp_handler_nan_id :
  mcp_handler "Agent" (JStr "") (JList []) [] demo_repr demo_dumps
    (Some (JDict nan_id_call)) "t"
  = Fails ValueError.
Proof. reflexivity. Qed.
